(** * A link-based question answering pipeline (chromaTest.py)

    Shallow embedding of the retrieval-and-relevance core of the program:
    the sentence segmenter, the keyword extractor, the relevance gate inside
    [RAGSystem.process_query], the answer synthesizer wrapper
    [LLMService.generate_answer] and the batch loader
    [RAGSystem.load_content_from_links].

    Python strings are sequences of Unicode code points; distances are IEEE
    binary64 floats, modelled by the primitive floats of the kernel.  The
    outside world (HTTP, the vector index, the Unicode case tables) enters as
    explicit arguments. *)

From Stdlib Require DecimalString DecimalNat.
From Stdlib Require Import String Ascii List NArith ZArith Bool Lia Floats
  Sorted.
Import ListNotations.

Set Implicit Arguments.
Set Warnings "-inexact-float".

(** ** Python built-ins *)
Module Py.

(** A [str] is a sequence of code points. *)
Definition char := N.
Definition str := list char.

Fixpoint bytes_of (s : string) : list N :=
  match s with
  | EmptyString => []
  | String a r => N_of_ascii a :: bytes_of r
  end.

(** Literals of this file are UTF-8 encoded, as the source file is. *)
Fixpoint utf8_decode (bs : list N) : str :=
  match bs with
  | [] => []
  | b0 :: r0 =>
    if (b0 <? 0x80)%N then b0 :: utf8_decode r0
    else match r0 with
    | [] => [b0]
    | b1 :: r1 =>
      if (b0 <? 0xE0)%N
      then ((b0 - 0xC0) * 64 + (b1 - 0x80))%N :: utf8_decode r1
      else match r1 with
      | [] => [b0; b1]
      | b2 :: r2 =>
        if (b0 <? 0xF0)%N
        then ((b0 - 0xE0) * 4096 + (b1 - 0x80) * 64 + (b2 - 0x80))%N
               :: utf8_decode r2
        else match r2 with
        | [] => [b0; b1; b2]
        | b3 :: r3 =>
          ((b0 - 0xF0) * 262144 + (b1 - 0x80) * 4096
           + (b2 - 0x80) * 64 + (b3 - 0x80))%N :: utf8_decode r3
        end
      end
    end
  end.

Definition u (s : string) : str := utf8_decode (bytes_of s).

(** Truth value of a sequence: empty is false. *)
Definition truthy (A : Type) (l : list A) : bool :=
  match l with
  | [] => false
  | _ :: _ => true
  end.

Fixpoint str_eqb (s t : str) : bool :=
  match s, t with
  | [], [] => true
  | a :: s', b :: t' => (a =? b)%N && str_eqb s' t'
  | _, _ => false
  end.

(** [str.isspace] on one code point: the characters that the argument-less
    [str.split] and [str.strip] treat as whitespace. *)
Definition isspace (c : char) : bool :=
  ((0x09 <=? c) && (c <=? 0x0D))%N
  || ((0x1C <=? c) && (c <=? 0x20))%N
  || (c =? 0x85)%N || (c =? 0xA0)%N || (c =? 0x1680)%N
  || ((0x2000 <=? c) && (c <=? 0x200A))%N
  || (c =? 0x2028)%N || (c =? 0x2029)%N || (c =? 0x202F)%N
  || (c =? 0x205F)%N || (c =? 0x3000)%N.

Fixpoint lstrip (s : str) : str :=
  match s with
  | [] => []
  | c :: s' => if isspace c then lstrip s' else s
  end.

Definition rstrip (s : str) : str := rev (lstrip (rev s)).

(** [s.strip()] *)
Definition strip (s : str) : str := lstrip (rstrip s).

Fixpoint startswith (s prefix : str) {struct prefix} : bool :=
  match prefix, s with
  | [], _ => true
  | _ :: _, [] => false
  | a :: p', b :: s' => (a =? b)%N && startswith s' p'
  end.

(** [sub in s] *)
Fixpoint contains (s sub : str) : bool :=
  startswith s sub
  || match s with
     | [] => false
     | _ :: s' => contains s' sub
     end.

(** [sep.join(parts)] *)
Fixpoint join (sep : str) (parts : list str) : str :=
  match parts with
  | [] => []
  | p :: rest =>
    match rest with
    | [] => p
    | _ :: _ => p ++ sep ++ join sep rest
    end
  end.

(** Put one more character in front of the fragment being read. *)
Definition cons_head (c : char) (frags : list str) : list str :=
  match frags with
  | [] => [[c]]
  | f :: rest => (c :: f) :: rest
  end.

(** [s.split()]: maximal runs of non-whitespace characters. *)
Fixpoint split_ws (s : str) : list str :=
  match s with
  | [] => []
  | c :: s' =>
    if isspace c then split_ws s'
    else match s' with
    | [] => [[c]]
    | d :: _ => if isspace d then [c] :: split_ws s'
                else cons_head c (split_ws s')
    end
  end.

Definition period : char := 46%N.
Definition space : char := 32%N.

(** The separator of [split_into_sentences]: ['. ']. *)
Definition marker : str := [period; space].

(** [s.split('. ')]: cut at every occurrence of the two-character separator,
    scanning from the left; the fragments may be empty, the result never is. *)
Fixpoint split_marker (s : str) : list str :=
  match s with
  | [] => [[]]
  | c :: s' =>
    match s' with
    | [] => [[c]]
    | d :: s'' =>
      if (c =? period)%N && (d =? space)%N
      then [] :: split_marker s''
      else cons_head c (split_marker s')
    end
  end.

End Py.

Import Py.

(** ** Configuration constants *)
Module Config.

Definition LLM_MODEL : str := u "gemma3:1b".
Definition OLLAMA_API_URL : str := u "http://localhost:11434/api/generate".
Definition OLLAMA_TIMEOUT : N := 30.
Definition RELEVANCE_THRESHOLD : float := 0.5%float.
Definition MAX_RESULTS : N := 10.
Definition USER_AGENT : str :=
  u "Mozilla/5.0 (Windows NT 10.0; Win64; x64) AppleWebKit/537.36 (KHTML, like Gecko) Chrome/91.0.4472.124 Safari/537.36".

(** The stop-word set; only membership is ever asked of it. *)
Definition STOPWORDS : list str :=
  [u "nedir"; u "nasıl"; u "ne"; u "için"; u "ile"; u "ve"; u "bir"; u "bu";
   u "şu"; u "zaman"].

End Config.

(** ** Text processing *)
Module TextProcessor.

Definition split_into_sentences (text : str) : list str :=
  if negb (truthy text) then []
  else
    let sentences := split_marker text in
    map strip (filter (fun s => truthy (strip s)) sentences).

Definition is_stopword (word : str) : bool :=
  existsb (str_eqb word) Config.STOPWORDS.

Section WithLower.

(** [str.lower]: the Unicode case mapping. *)
Variable lower : str -> str.

Definition extract_keywords (query : str) : list str :=
  let words := split_ws (lower query) in
  let keywords := filter (fun word => negb (is_stopword word)) words in
  keywords.

Definition is_sentence_relevant (sentence : str) (query_keywords : list str)
  : bool :=
  let sentence_lower := lower sentence in
  existsb (fun keyword => contains sentence_lower keyword) query_keywords.

End WithLower.

End TextProcessor.

(** ** Exceptions and fallible computations *)
Module Exn.

(** The exception classes the program can meet.  [ConnectTimeout] is a
    subclass of both [ConnectionError] and [Timeout] in the requests
    library; [ReadTimeout] is a subclass of [Timeout] only. *)
Inductive exn : Type :=
| ConnectionError
| ConnectTimeout
| ReadTimeout
| HTTPError
| JSONDecodeError
| AttributeError
| TypeError
| IndexError
| EOFError
| OtherException.

(** [isinstance(e, requests.exceptions.ConnectionError)] *)
Definition isinstance_ConnectionError (e : exn) : bool :=
  match e with
  | ConnectionError | ConnectTimeout => true
  | _ => false
  end.

(** [isinstance(e, requests.exceptions.Timeout)] *)
Definition isinstance_Timeout (e : exn) : bool :=
  match e with
  | ConnectTimeout | ReadTimeout => true
  | _ => false
  end.

Inductive result (A : Type) : Type :=
| Ok (a : A)
| Raise (e : exn).

Arguments Ok {A} a.
Arguments Raise {A} e.

Definition bind (A B : Type) (c : result A) (k : A -> result B) : result B :=
  match c with
  | Ok a => k a
  | Raise e => Raise e
  end.

(** [xs[0]] on a list. *)
Definition item0 (A : Type) (xs : list A) : result A :=
  match xs with
  | [] => Raise IndexError
  | x :: _ => Ok x
  end.

(** [xs[0]] on an optional list: [None] is not subscriptable. *)
Definition subscript0 (A : Type) (xs : option (list A)) : result A :=
  match xs with
  | None => Raise TypeError
  | Some l => item0 l
  end.

(** Truth value of an optional list. *)
Definition truthy_opt (A : Type) (xs : option (list A)) : bool :=
  match xs with
  | None => false
  | Some l => truthy l
  end.

End Exn.

Import Exn.

Notation "x <- c ;; k" := (bind c (fun x => k))
  (at level 61, c at next level, right associativity).

(** ** The HTTP client as the program sees it *)
Module Requests.

(** A decoded JSON document. *)
#[warnings="-register-all"]
Inductive JSON : Type :=
| JNull
| JBool (b : bool)
| JNumber (x : float)
| JString (s : str)
| JArray (items : list JSON)
| JObject (fields : list (str * JSON)).

Fixpoint dict_lookup (key : str) (fields : list (str * JSON)) : option JSON :=
  match fields with
  | [] => None
  | (k, v) :: rest => if str_eqb k key then Some v else dict_lookup key rest
  end.

(** [result.get(key, default)]: only a dict has the method. *)
Definition get (document : JSON) (key : str) (default : JSON)
  : result JSON :=
  match document with
  | JObject fields =>
    match dict_lookup key fields with
    | Some v => Ok v
    | None => Ok default
    end
  | _ => Raise AttributeError
  end.

(** [answer.strip()]: only a string has the method. *)
Definition strip_method (answer : JSON) : result str :=
  match answer with
  | JString s => Ok (strip s)
  | _ => Raise AttributeError
  end.

(** A response object: what its two methods do, and its body. *)
Record Response : Type := {
  raise_for_status : result unit;
  text : str;
  json : result JSON
}.

(** The body of a POST to the generation endpoint. *)
Record PostRequest : Type := {
  post_url : str;
  json_model : str;
  json_prompt : str;
  json_stream : bool;
  timeout : N
}.

End Requests.

Import Requests.

(** ** Fetching page content *)
Module ContentFetcher.

Section WithNetwork.

(** [requests.get(url, headers=headers)] *)
Variable requests_get : str -> list (str * str) -> result Response.
(** The texts of the paragraph elements of a page, in document order. *)
Variable paragraph_texts : str -> list str.

Definition fetch_from_url (url : str) : option str :=
  let headers := [(u "User-Agent", Config.USER_AGENT)] in
  let attempt :=
    response <- requests_get url headers ;;
    _ <- raise_for_status response ;;
    let paragraphs := paragraph_texts (text response) in
    let content := join (u " ") paragraphs in
    if negb (truthy (strip content)) then Ok None
    else Ok (Some content) in
  match attempt with
  | Ok r => r
  | Raise _ => None
  end.

End WithNetwork.

End ContentFetcher.

(** ** The answer synthesizer *)
Module LLMService.

Definition NOT_FOUND : str := u "Bunu bulamadım.".
Definition CONNECTION_FALLBACK : str :=
  u "Ollama sunucusuna bağlanılamadı. Lütfen 'ollama serve' komutunu çalıştırarak sunucuyu başlatın.".
Definition ERROR_FALLBACK : str := u "Yanıt üretilirken bir hata oluştu.".

Definition newline : str := [10%N].

Definition build_prompt (question context : str) : str :=
  u "Soru: " ++ question ++ newline ++ u "Bağlam: " ++ context
    ++ newline ++ u "Yanıt:".

Definition build_request (prompt : str) : PostRequest :=
  {| post_url := Config.OLLAMA_API_URL;
     json_model := Config.LLM_MODEL;
     json_prompt := prompt;
     json_stream := false;
     timeout := Config.OLLAMA_TIMEOUT |}.

Section WithEndpoint.

(** [requests.post(url, json=..., timeout=...)] *)
Variable requests_post : PostRequest -> result Response.

(** The body of the [try] block. *)
Definition attempt (request : PostRequest) : result str :=
  response <- requests_post request ;;
  _ <- raise_for_status response ;;
  result <- json response ;;
  answer <- get result (u "response") (JString NOT_FOUND) ;;
  strip_method answer.

(** The answer, with the requests sent to the endpoint on the way. *)
Definition generate_answer (question : str) (context_sentences : list str)
  : str * list PostRequest :=
  if negb (truthy context_sentences) then (NOT_FOUND, [])
  else
    let context := join (u " ") context_sentences in
    let prompt := build_prompt question context in
    let request := build_request prompt in
    match attempt request with
    | Ok answer => (answer, [request])
    | Raise e =>
      if isinstance_ConnectionError e then (CONNECTION_FALLBACK, [request])
      else (ERROR_FALLBACK, [request])
    end.

End WithEndpoint.

End LLMService.

(** ** The vector index as the program sees it *)
Module Chroma.

Record Metadata : Type := { text : str }.

(** The dictionary returned by [collection.query]. *)
Record QueryResult : Type := {
  distances : option (list (list float));
  metadatas : option (list (list Metadata))
}.

End Chroma.

(** ** The RAG system *)
Module RAGSystem.

(** What the filtering loop and the final test of [process_query] decide. *)
Record RelevanceDecision : Type := {
  admitted : list str;
  answerable : bool
}.

Section WithWorld.

Variable lower : str -> str.
Variable requests_get : str -> list (str * str) -> result Response.
Variable paragraph_texts : str -> list str.
Variable requests_post : PostRequest -> result Response.
(** [vector_store.query_similar] *)
Variable query_similar : str -> Chroma.QueryResult.
(** [Config.RELEVANCE_THRESHOLD] *)
Variable threshold : float.

Definition load_step (all_sentences : list str) (link : str) : list str :=
  match ContentFetcher.fetch_from_url requests_get paragraph_texts link with
  | Some content =>
    if truthy content
    then all_sentences ++ TextProcessor.split_into_sentences content
    else all_sentences
  | None => all_sentences
  end.

Definition load_content_from_links (links : list str) : list str :=
  fold_left load_step links [].

(** One turn of the filtering loop. *)
Definition filter_step (query_keywords : list str)
  (relevant_sentences : list str) (candidate : str * float) : list str :=
  let (sentence, distance) := candidate in
  if TextProcessor.is_sentence_relevant lower sentence query_keywords
     && (distance <=? threshold)%float
  then relevant_sentences ++ [sentence]
  else relevant_sentences.

(** The loop over [zip(selected_sentences, distances)]. *)
Definition filter_relevant (selected_sentences : list str)
  (distances : list float) (query_keywords : list str) : list str :=
  fold_left (filter_step query_keywords)
    (combine selected_sentences distances) [].

(** [not relevant_sentences or (distances and distances[0] > threshold)] *)
Definition not_found_test (relevant_sentences : list str)
  (distances : list float) : result bool :=
  if negb (truthy relevant_sentences) then Ok true
  else if truthy distances then
    d0 <- item0 distances ;; Ok (threshold <? d0)%float
  else Ok false.

(** The relevance gate: from the query results and the keywords to the
    decision. *)
Definition relevance_gate (query_results : Chroma.QueryResult)
  (query_keywords : list str) : result RelevanceDecision :=
  distances <-
    (if truthy_opt (Chroma.distances query_results)
     then subscript0 (Chroma.distances query_results)
     else Ok []) ;;
  selected_sentences <-
    (if truthy_opt (Chroma.metadatas query_results)
     then row <- subscript0 (Chroma.metadatas query_results) ;;
          Ok (map Chroma.text row)
     else Ok []) ;;
  let relevant_sentences :=
    filter_relevant selected_sentences distances query_keywords in
  not_found <- not_found_test relevant_sentences distances ;;
  Ok {| admitted := relevant_sentences; answerable := negb not_found |}.

(** The answer, with the requests sent to the synthesizer on the way. *)
Definition process_query (query : str) : result (str * list PostRequest) :=
  let query_results := query_similar query in
  let query_keywords := TextProcessor.extract_keywords lower query in
  decision <- relevance_gate query_results query_keywords ;;
  if negb (answerable decision) then Ok (LLMService.NOT_FOUND, [])
  else Ok (LLMService.generate_answer requests_post query
             (admitted decision)).

(** How the question loop of [main] ends. *)
Inductive session_end : Type :=
| Exited
| Crashed (e : exn).

(** The question loop of [main] over the lines typed by the user: the
    answers printed, and how the loop ended. *)
Fixpoint query_loop (inputs : list str) : list str * session_end :=
  match inputs with
  | [] => ([], Crashed EOFError)
  | user_query :: rest =>
    if str_eqb (lower user_query) (u "çık") then ([], Exited)
    else match process_query user_query with
    | Ok (answer, _) =>
      let (answers, ending) := query_loop rest in
      (answer :: answers, ending)
    | Raise e => ([], Crashed e)
    end
  end.

End WithWorld.

End RAGSystem.

(** ** The vector store *)
Module VectorStore.

(** One record of the collection. *)
Record Entry : Type := {
  entry_id : str;
  entry_embedding : list float;
  entry_metadata : Chroma.Metadata
}.

(** [str(i)] for a position [i]. *)
Definition str_of_nat (i : nat) : str :=
  bytes_of (DecimalString.NilEmpty.string_of_uint (Nat.to_uint i)).

(** [enumerate(xs)] *)
Definition enumerate (A : Type) (xs : list A) : list (nat * A) :=
  combine (seq 0 (List.length xs)) xs.

Definition has_id (collection : list Entry) (i : str) : bool :=
  existsb (fun e => str_eqb (entry_id e) i) collection.

Section WithModel.

(** [model.encode(sentences, normalize_embeddings=True)], as lists. *)
Variable encode : list str -> list (list float).
(** What the collection does with a record whose id it holds already. *)
Variable add_existing : list Entry -> Entry -> list Entry.

(** [collection.add] of one record. *)
Definition collection_add (collection : list Entry) (e : Entry)
  : list Entry :=
  if has_id collection (entry_id e) then add_existing collection e
  else collection ++ [e].

(** One turn of the loop of [add_sentences]. *)
Definition add_step (collection : list Entry)
  (item : nat * (str * list float)) : list Entry :=
  let '(i, (sentence, vector)) := item in
  collection_add collection
    {| entry_id := str_of_nat i;
       entry_embedding := vector;
       entry_metadata := {| Chroma.text := sentence |} |}.

Definition add_sentences (collection : list Entry) (sentences : list str)
  : list Entry :=
  if negb (truthy sentences) then collection
  else
    let embeddings := encode sentences in
    fold_left add_step (enumerate (combine sentences embeddings)) collection.

End WithModel.

End VectorStore.

(** ** The interactive surface *)
Module Main.

(** What the program writes: a printed line, or the prompt of [input]. *)
Inductive event : Type :=
| Printed (line : str)
| Prompted (prompt : str).

Definition LINKS_INTRO : str :=
  u "Lütfen içerik linklerini girin. Her linki ayrı bir satıra yazın. Bittiğinde 'bitti' yazın.".
Definition LINK_PROMPT : str := u "Link (veya 'bitti' yazın): ".
Definition INVALID_LINK : str :=
  u "Geçersiz link, lütfen 'http' ile başlayan bir link girin.".

(** How [main] ends: by an exception, for lack of links, for lack of
    sentences, or after the question loop. *)
Inductive main_end : Type :=
| Raised (e : exn)
| NoLinks
| NoSentences
| Asked (answers : list str) (ending : RAGSystem.session_end).

Section WithWorld.

Variable lower : str -> str.
Variable requests_get : str -> list (str * str) -> result Response.
Variable paragraph_texts : str -> list str.
Variable requests_post : PostRequest -> result Response.
Variable encode : list str -> list (list float).
Variable add_existing :
  list VectorStore.Entry -> VectorStore.Entry -> list VectorStore.Entry.
(** The lookup of the vector index over the records it holds. *)
Variable query_similar : list VectorStore.Entry -> str -> Chroma.QueryResult.
Variable threshold : float.
(** [RAGSystem()]: loading the embedding model and creating the
    collection, which starts empty. *)
Variable new_rag_system : result unit.

(** The loop of [get_links_from_user] over the lines typed by the user:
    the links (or the exception of [input] at the end of the input), what
    was written, and the lines left unread. *)
Fixpoint links_loop (inputs : list str) (links : list str)
  : result (list str) * list event * list str :=
  match inputs with
  | [] => (Raise EOFError, [Prompted LINK_PROMPT], [])
  | link :: rest =>
    if str_eqb (lower link) (u "bitti")
    then (Ok links, [Prompted LINK_PROMPT], rest)
    else if startswith link (u "http")
    then let '(r, out, unread) := links_loop rest (links ++ [link]) in
         (r, Prompted LINK_PROMPT :: out, unread)
    else let '(r, out, unread) := links_loop rest links in
         (r, Prompted LINK_PROMPT :: Printed INVALID_LINK :: out, unread)
  end.

Definition get_links_from_user (inputs : list str)
  : result (list str) * list event * list str :=
  let '(r, out, unread) := links_loop inputs [] in
  (r, Printed LINKS_INTRO :: out, unread).

(** [main] over the lines typed by the user. *)
Definition main (inputs : list str) : main_end :=
  match get_links_from_user inputs with
  | (Raise e, _, _) => Raised e
  | (Ok links, _, rest) =>
    if negb (truthy links) then NoLinks
    else
      match new_rag_system with
      | Raise e => Raised e
      | Ok _ =>
        let all_sentences :=
          RAGSystem.load_content_from_links requests_get paragraph_texts
            links in
        if negb (truthy all_sentences) then NoSentences
        else
          let collection :=
            VectorStore.add_sentences encode add_existing [] all_sentences in
          let (answers, ending) :=
            RAGSystem.query_loop lower requests_post
              (query_similar collection) threshold rest in
          Asked answers ending
      end
  end.

End WithWorld.

End Main.

(** ** Concrete worlds for examples *)
Module Examples.

(** A lower-casing that agrees with [str.lower] on the strings of the
    examples: it maps A-Z to a-z and keeps every other character. *)
Definition ascii_lower_char (c : char) : char :=
  if ((65 <=? c) && (c <=? 90))%N then (c + 32)%N else c.

Definition ascii_lower (s : str) : str := map ascii_lower_char s.

(** Two candidates in ascending order of distance. *)
Definition elma_results : Chroma.QueryResult :=
  {| Chroma.distances := Some [[0.2; 0.9]%float];
     Chroma.metadatas :=
       Some [[ {| Chroma.text := u "elma kırmızıdır" |};
               {| Chroma.text := u "araba hızlıdır" |} ]] |}.

(** The same candidates, the far one first. *)
Definition far_first_results : Chroma.QueryResult :=
  {| Chroma.distances := Some [[0.9; 0.2]%float];
     Chroma.metadatas :=
       Some [[ {| Chroma.text := u "araba hızlıdır" |};
               {| Chroma.text := u "elma kırmızıdır" |} ]] |}.

(** An endpoint that fails with the given exception. *)
Definition failing (e : exn) (request : PostRequest) : result Response :=
  Raise e.

(** A site where one page cannot be fetched and the others have one
    paragraph each, the path of the page. *)
Definition site (url : str) (headers : list (str * str)) : result Response :=
  if str_eqb url (u "http://kapali") then Raise ConnectionError
  else Ok {| raise_for_status := Ok tt; Requests.text := url;
             json := Raise JSONDecodeError |}.

Definition one_paragraph (html : str) : list str := [html].

(** An endpoint that answers every request with the given document. *)
Definition replying (document : JSON) (request : PostRequest)
  : result Response :=
  Ok {| raise_for_status := Ok tt; Requests.text := []; json := Ok document |}.

(** An encoder that gives every sentence the same one-dimensional
    embedding. *)
Definition flat_encode (sentences : list str) : list (list float) :=
  map (fun _ => [1%float]) sentences.

(** A collection that keeps the record it has. *)
Definition keep_existing (collection : list VectorStore.Entry)
  (e : VectorStore.Entry) : list VectorStore.Entry := collection.

(** An index that returns every stored text at distance 0.25. *)
Definition near_index (collection : list VectorStore.Entry) (query : str)
  : Chroma.QueryResult :=
  {| Chroma.distances := Some [map (fun _ => 0.25%float) collection];
     Chroma.metadatas := Some [map VectorStore.entry_metadata collection] |}.

End Examples.

(** ** Vocabulary of the statements *)

(** A string that begins (ends) with no whitespace. *)
Definition begins_clean (s : str) : bool :=
  match s with
  | [] => true
  | c :: _ => negb (isspace c)
  end.

Definition ends_clean (s : str) : bool := begins_clean (rev s).

(** A word: not empty, no whitespace in it. *)
Definition is_word (w : str) : Prop :=
  w <> [] /\ forallb (fun c => negb (isspace c)) w = true.

(** A segmented sentence: not empty, no whitespace at either end, no
    separator inside. *)
Definition is_sentence (s : str) : Prop :=
  s <> [] /\ begins_clean s = true /\ ends_clean s = true
  /\ contains s marker = false.

(** [sub] occurs in [s]. *)
Definition occurs_in (sub s : str) : Prop :=
  exists pre post, s = pre ++ sub ++ post.

(** The first row of a batched query result, empty when there is none:
    what [rows[0] if rows else []] evaluates to. *)
Definition first_row (A : Type) (rows : option (list (list A))) : list A :=
  match rows with
  | Some (row :: _) => row
  | _ => []
  end.

(** The test of one turn of the filtering loop, on a candidate. *)
Definition admission_test (lower : str -> str) (threshold : float)
  (query_keywords : list str) (candidate : str * float) : bool :=
  TextProcessor.is_sentence_relevant lower (fst candidate) query_keywords
  && (snd candidate <=? threshold)%float.

(** The condition of the "not found" answer: nothing was admitted, or the
    first distance is above the threshold. *)
Definition vetoed_at (threshold : float) (relevant : list str)
  (distances : list float) : Prop :=
  relevant = []
  \/ exists d0 rest, distances = d0 :: rest /\ (threshold <? d0)%float = true.

(** The request that [generate_answer] sends for a question and its
    context sentences. *)
Definition request_for (question : str) (context_sentences : list str)
  : PostRequest :=
  LLMService.build_request
    (LLMService.build_prompt question (join (u " ") context_sentences)).

(** The fallback answer of [generate_answer] for an exception caught in
    the [try] block. *)
Definition fallback_for (e : exn) : str :=
  if isinstance_ConnectionError e then LLMService.CONNECTION_FALLBACK
  else LLMService.ERROR_FALLBACK.

(** The exit command of the question loop. *)
Definition is_exit (lower : str -> str) (line : str) : bool :=
  str_eqb (lower line) (u "çık").

(** The headers that [fetch_from_url] sends. *)
Definition fetch_headers : list (str * str) :=
  [(u "User-Agent", Config.USER_AGENT)].

(** A distance that compares with nothing. *)
Definition is_nan (d : float) : Prop := Prim2SF d = S754_nan.

(** The word that ends the entry of links. *)
Definition is_done (lower : str -> str) (line : str) : bool :=
  str_eqb (lower line) (u "bitti").

(** [l1] is [l2] with some elements left out. *)
Inductive subseq (A : Type) : list A -> list A -> Prop :=
| subseq_nil : subseq [] []
| subseq_skip x l1 l2 : subseq l1 l2 -> subseq l1 (x :: l2)
| subseq_keep x l1 l2 : subseq l1 l2 -> subseq (x :: l1) (x :: l2).

(** Distances in ascending order. *)
Definition ascending (distances : list float) : Prop :=
  Sorted (fun a b => (a <=? b)%float = true) distances.

(** The place of a float on the number line, as a triple compared
    lexicographically: the sign class, then exponent and mantissa; a value
    that is not a number has no place. *)
Definition sf_key (x : spec_float) : option (Z * Z * Z) :=
  match x with
  | S754_nan => None
  | S754_infinity true => Some ((-2)%Z, 0%Z, 0%Z)
  | S754_infinity false => Some (2%Z, 0%Z, 0%Z)
  | S754_zero _ => Some (0%Z, 0%Z, 0%Z)
  | S754_finite true m e => Some ((-1)%Z, (- e)%Z, Z.neg m)
  | S754_finite false m e => Some (1%Z, e, Z.pos m)
  end.

Definition lex3 (a b : Z * Z * Z) : comparison :=
  let '(a1, a2, a3) := a in
  let '(b1, b2, b3) := b in
  match (a1 ?= b1)%Z with
  | Eq => match (a2 ?= b2)%Z with
          | Eq => (a3 ?= b3)%Z
          | c => c
          end
  | c => c
  end.

(** "At most" and "less than" on the result of a comparison. *)
Definition cmp_le (c : option comparison) : bool :=
  match c with
  | Some Lt | Some Eq => true
  | _ => false
  end.

Definition cmp_lt (c : option comparison) : bool :=
  match c with
  | Some Lt => true
  | _ => false
  end.

(** The record that one turn of the loop of [add_sentences] stores. *)
Definition stored_record (item : nat * (str * list float))
  : VectorStore.Entry :=
  {| VectorStore.entry_id := VectorStore.str_of_nat (fst item);
     VectorStore.entry_embedding := snd (snd item);
     VectorStore.entry_metadata := {| Chroma.text := fst (snd item) |} |}.

(** The number of rejection messages among the events. *)
Definition rejections (out : list Main.event) : nat :=
  List.length
    (filter (fun ev => match ev with
                       | Main.Printed line => str_eqb line Main.INVALID_LINK
                       | Main.Prompted _ => false
                       end) out).

(** * Properties *)

(** ** Strings *)
Section StrFacts.

Lemma str_eqb_eq (s t : str) : str_eqb s t = true <-> s = t.
Proof.
  revert t; induction s as [|a s IH]; intros [|b t]; simpl;
    try (split; [discriminate | intros H; discriminate H]);
    try (split; reflexivity).
  rewrite andb_true_iff, N.eqb_eq, IH.
  split.
  - intros [-> ->]; reflexivity.
  - intros H; injection H; auto.
Qed.

Lemma str_eqb_refl (s : str) : str_eqb s s = true.
Proof. apply str_eqb_eq; reflexivity. Qed.

Lemma str_eq_dec (s t : str) : {s = t} + {s <> t}.
Proof. apply list_eq_dec, N.eq_dec. Defined.

Lemma startswith_spec (s p : str) :
  startswith s p = true <-> exists post, s = p ++ post.
Proof.
  revert s; induction p as [|a p IH]; intros s; simpl.
  - split; [intros _; exists s; reflexivity | reflexivity].
  - destruct s as [|b s].
    + split; [discriminate | intros [post H]; discriminate H].
    + rewrite andb_true_iff, N.eqb_eq, IH.
      split.
      * intros [-> [post ->]]; exists post; reflexivity.
      * intros [post H]; injection H as -> ->; split; eauto.
Qed.

Lemma contains_spec (s k : str) :
  contains s k = true <-> exists pre post, s = pre ++ k ++ post.
Proof.
  induction s as [|c s IH].
  - simpl. rewrite orb_false_r, startswith_spec.
    split.
    + intros [post H]; exists [], post; exact H.
    + intros [pre [post H]].
      destruct pre as [|x pre]; [exists post; exact H | discriminate H].
  - change (contains (c :: s) k)
      with (startswith (c :: s) k || contains s k).
    rewrite orb_true_iff, startswith_spec, IH.
    split.
    + intros [[post H] | [pre [post H]]].
      * exists [], post; exact H.
      * exists (c :: pre), post; rewrite H; reflexivity.
    + intros [pre [post H]].
      destruct pre as [|x pre].
      * left; exists post; exact H.
      * right; injection H as _ H; exists pre, post; exact H.
Qed.

Lemma contains_cons (c : char) (s k : str) :
  contains (c :: s) k = startswith (c :: s) k || contains s k.
Proof. reflexivity. Qed.

Lemma lstrip_suffix (s : str) :
  exists l, s = l ++ lstrip s /\ forallb isspace l = true.
Proof.
  induction s as [|c s [l [H1 H2]]]; simpl.
  - exists []; split; reflexivity.
  - destruct (isspace c) eqn:E.
    + exists (c :: l); simpl; rewrite E, H2; split; [f_equal; exact H1 | reflexivity].
    + exists []; split; reflexivity.
Qed.

Lemma lstrip_begins_clean (s : str) : begins_clean (lstrip s) = true.
Proof.
  induction s as [|c s IH]; simpl; [reflexivity|].
  destruct (isspace c) eqn:E; [exact IH | simpl; rewrite E; reflexivity].
Qed.

Lemma lstrip_id (s : str) : begins_clean s = true -> lstrip s = s.
Proof.
  destruct s as [|c s]; simpl; [reflexivity|].
  intros H; apply negb_true_iff in H; rewrite H; reflexivity.
Qed.

Lemma lstrip_ends_clean (s : str) :
  ends_clean s = true -> ends_clean (lstrip s) = true.
Proof.
  unfold ends_clean.
  destruct (lstrip_suffix s) as [l [H _]].
  destruct (lstrip s) as [|c t] eqn:E; [reflexivity|].
  intros Hs. rewrite H, rev_app_distr in Hs. simpl in *.
  destruct (rev t) as [|x r]; simpl in *; exact Hs.
Qed.

Lemma rstrip_ends_clean (s : str) : ends_clean (rstrip s) = true.
Proof.
  unfold ends_clean, rstrip; rewrite rev_involutive; apply lstrip_begins_clean.
Qed.

Lemma rstrip_id (s : str) : ends_clean s = true -> rstrip s = s.
Proof.
  unfold ends_clean, rstrip; intros H.
  rewrite (lstrip_id _ H); apply rev_involutive.
Qed.

Lemma rstrip_prefix (s : str) :
  exists r, s = rstrip s ++ r /\ forallb isspace r = true.
Proof.
  unfold rstrip. destruct (lstrip_suffix (rev s)) as [l [H1 H2]].
  exists (rev l); split.
  - rewrite <- rev_app_distr, <- H1, rev_involutive; reflexivity.
  - rewrite forallb_forall in *; intros x Hx; apply H2, in_rev; exact Hx.
Qed.

Lemma strip_clean (s : str) :
  begins_clean (strip s) = true /\ ends_clean (strip s) = true.
Proof.
  unfold strip; split.
  - apply lstrip_begins_clean.
  - apply lstrip_ends_clean, rstrip_ends_clean.
Qed.

Lemma strip_id (s : str) :
  begins_clean s = true -> ends_clean s = true -> strip s = s.
Proof.
  intros Hb He; unfold strip; rewrite (rstrip_id _ He); apply lstrip_id, Hb.
Qed.

Lemma strip_idempotent (s : str) : strip (strip s) = strip s.
Proof. destruct (strip_clean s); apply strip_id; assumption. Qed.

(** [strip] removes a run of whitespace at each end and nothing else. *)
Lemma strip_spec (s : str) :
  exists l r, s = l ++ strip s ++ r
    /\ forallb isspace l = true /\ forallb isspace r = true
    /\ begins_clean (strip s) = true /\ ends_clean (strip s) = true.
Proof.
  destruct (rstrip_prefix s) as [r [Hr1 Hr2]].
  destruct (lstrip_suffix (rstrip s)) as [l [Hl1 Hl2]].
  exists l, r; fold (strip s) in Hl1.
  destruct (strip_clean s) as [Hb He].
  repeat split; try assumption.
  rewrite app_assoc, <- Hl1; exact Hr1.
Qed.

End StrFacts.

(** ** Splitting *)
Section SplitFacts.

(** Induction two characters at a time, the way [split_marker] recurses. *)
Lemma str_pair_ind (P : str -> Prop) :
  P [] -> (forall c, P [c]) ->
  (forall c d s, P s -> P (d :: s) -> P (c :: d :: s)) ->
  forall s, P s.
Proof.
  intros H0 H1 H2 s.
  assert (H : P s /\ forall c, P (c :: s)).
  { induction s as [|d s [IHa IHb]].
    - split; [exact H0 | exact H1].
    - split; [apply IHb | intros c; apply H2; [exact IHa | apply IHb]]. }
  exact (proj1 H).
Qed.

Lemma cons_head_app (c : char) (l m : list str) :
  l <> [] -> cons_head c (l ++ m) = cons_head c l ++ m.
Proof. destruct l; [congruence | reflexivity]. Qed.

Lemma split_marker_cons2 (c d : char) (s : str) :
  split_marker (c :: d :: s) =
  if (c =? period)%N && (d =? space)%N then [] :: split_marker s
  else cons_head c (split_marker (d :: s)).
Proof. reflexivity. Qed.

Lemma split_marker_nonempty (s : str) : split_marker s <> [].
Proof.
  destruct s as [|c [|d s]]; try discriminate.
  rewrite split_marker_cons2.
  destruct ((c =? period)%N && (d =? space)%N); [discriminate|].
  destruct (split_marker (d :: s)); discriminate.
Qed.

Lemma join_cons_head (c : char) (l : list str) :
  l <> [] -> join marker (cons_head c l) = c :: join marker l.
Proof.
  destruct l as [|f [|g r]]; [congruence | reflexivity | reflexivity].
Qed.

Lemma join_cons (sep p : str) (rest : list str) :
  rest <> [] -> join sep (p :: rest) = p ++ sep ++ join sep rest.
Proof. destruct rest; [congruence | reflexivity]. Qed.

(** The fragments, joined by the separator, give the text back. *)
Lemma join_split_marker (s : str) : join marker (split_marker s) = s.
Proof.
  induction s as [|c|c d s IHs IHd] using str_pair_ind; try reflexivity.
  rewrite split_marker_cons2.
  destruct ((c =? period)%N && (d =? space)%N) eqn:E.
  - apply andb_true_iff in E; destruct E as [Ec Ed].
    apply N.eqb_eq in Ec, Ed; subst.
    rewrite join_cons by apply split_marker_nonempty.
    rewrite IHs; reflexivity.
  - rewrite join_cons_head by apply split_marker_nonempty.
    rewrite IHd; reflexivity.
Qed.

Lemma split_marker_head (d : char) (s : str) :
  exists f rest, split_marker (d :: s) = f :: rest
    /\ (f = [] \/ exists f', f = d :: f').
Proof.
  destruct s as [|e s].
  - exists [d], []; split; [reflexivity | right; exists []; reflexivity].
  - rewrite split_marker_cons2.
    destruct ((d =? period)%N && (e =? space)%N).
    + exists [], (split_marker s); split; [reflexivity | left; reflexivity].
    + destruct (split_marker (e :: s)) as [|f rest].
      * exists [d], []; split; [reflexivity | right; exists []; reflexivity].
      * exists (d :: f), rest; split; [reflexivity | right; exists f; reflexivity].
Qed.

Lemma startswith_marker (c d : char) (s : str) :
  startswith (c :: d :: s) marker = (c =? period)%N && (d =? space)%N.
Proof.
  change (startswith (c :: d :: s) marker)
    with ((period =? c)%N && ((space =? d)%N && true)).
  rewrite andb_true_r, (N.eqb_sym period c), (N.eqb_sym space d); reflexivity.
Qed.

(** No fragment contains the separator. *)
Lemma split_marker_fragments (s : str) :
  Forall (fun f => contains f marker = false) (split_marker s).
Proof.
  induction s as [|c|c d s IHs IHd] using str_pair_ind.
  - constructor; [reflexivity | constructor].
  - constructor; [|constructor].
    rewrite contains_cons.
    change (startswith [c] marker) with ((period =? c)%N && false).
    rewrite andb_false_r; reflexivity.
  - rewrite split_marker_cons2.
    destruct ((c =? period)%N && (d =? space)%N) eqn:E.
    + constructor; [reflexivity | exact IHs].
    + destruct (split_marker_head d s) as [f [rest [Hf Hhead]]].
      rewrite Hf in *. simpl.
      inversion IHd as [|? ? Hc Hrest]; subst.
      constructor; [|exact Hrest].
      rewrite contains_cons, Hc, orb_false_r.
      destruct Hhead as [-> | [f' ->]].
      * change (startswith [c] marker) with ((period =? c)%N && false).
        apply andb_false_r.
      * rewrite startswith_marker; exact E.
Qed.

(** A text without the separator is one fragment. *)
Lemma split_marker_none (s : str) :
  contains s marker = false -> split_marker s = [s].
Proof.
  induction s as [|c|c d s IHs IHd] using str_pair_ind; try reflexivity.
  rewrite contains_cons, startswith_marker.
  intros H; apply orb_false_iff in H; destruct H as [H1 H2].
  rewrite split_marker_cons2, H1, (IHd H2); reflexivity.
Qed.

(** Cutting at one occurrence of the separator cuts the fragment lists. *)
Lemma split_marker_app (pre tail : str) :
  split_marker (pre ++ marker ++ tail) = split_marker pre ++ split_marker tail.
Proof.
  induction pre as [|c|c d s IHs IHd] using str_pair_ind.
  - reflexivity.
  - change ([c] ++ marker ++ tail) with (c :: period :: space :: tail).
    rewrite split_marker_cons2.
    replace ((c =? period)%N && (period =? space)%N) with false
      by (rewrite andb_comm; reflexivity).
    reflexivity.
  - change ((c :: d :: s) ++ marker ++ tail)
      with (c :: d :: (s ++ marker ++ tail)).
    rewrite !split_marker_cons2.
    destruct ((c =? period)%N && (d =? space)%N).
    + rewrite IHs; reflexivity.
    + change (d :: s ++ marker ++ tail) with ((d :: s) ++ marker ++ tail).
      rewrite IHd. apply cons_head_app, split_marker_nonempty.
Qed.

(** Splitting undoes joining, for fragments free of the separator. *)
Lemma split_marker_join (parts : list str) :
  parts <> [] ->
  Forall (fun f => contains f marker = false) parts ->
  split_marker (join marker parts) = parts.
Proof.
  induction parts as [|p rest IH]; [congruence|].
  intros _ H; inversion H as [|? ? Hp Hrest]; subst.
  destruct rest as [|q rest].
  - apply split_marker_none, Hp.
  - rewrite join_cons by discriminate.
    rewrite split_marker_app, (split_marker_none _ Hp), IH;
      [reflexivity | discriminate | exact Hrest].
Qed.

Lemma split_ws_cons2 (c d : char) (s : str) :
  split_ws (c :: d :: s) =
  if isspace c then split_ws (d :: s)
  else if isspace d then [c] :: split_ws (d :: s)
  else cons_head c (split_ws (d :: s)).
Proof. reflexivity. Qed.

Lemma split_ws_nonempty (d : char) (s : str) :
  isspace d = false -> split_ws (d :: s) <> [].
Proof.
  intros H; destruct s as [|e s].
  - simpl; rewrite H; discriminate.
  - rewrite split_ws_cons2, H.
    destruct (isspace e); [discriminate|].
    destruct (split_ws (e :: s)); discriminate.
Qed.

Lemma split_ws_words (s : str) : Forall is_word (split_ws s).
Proof.
  induction s as [|c s IH]; [constructor|].
  destruct s as [|d s].
  - simpl. destruct (isspace c) eqn:E; [constructor|].
    repeat constructor; [discriminate | simpl; rewrite E; reflexivity].
  - rewrite split_ws_cons2.
    destruct (isspace c) eqn:Ec; [exact IH|].
    destruct (isspace d) eqn:Ed.
    + constructor; [|exact IH].
      split; [discriminate | simpl; rewrite Ec; reflexivity].
    + destruct (split_ws (d :: s)) as [|w rest]; simpl.
      * repeat constructor; [discriminate | simpl; rewrite Ec; reflexivity].
      * inversion IH as [|? ? [_ Hw] Hrest]; subst.
        constructor; [|exact Hrest].
        split; [discriminate | simpl; rewrite Ec, Hw; reflexivity].
Qed.

Lemma concat_cons_head (c : char) (l : list str) :
  concat (cons_head c l) = c :: concat l.
Proof. destruct l; reflexivity. Qed.

(** The words hold the non-whitespace characters of the text, in order. *)
Lemma split_ws_concat (s : str) :
  concat (split_ws s) = filter (fun c => negb (isspace c)) s.
Proof.
  induction s as [|c s IH]; [reflexivity|].
  destruct s as [|d s].
  - simpl. destruct (isspace c); reflexivity.
  - rewrite split_ws_cons2.
    change (filter (fun c => negb (isspace c)) (c :: d :: s))
      with (if negb (isspace c)
            then c :: filter (fun c => negb (isspace c)) (d :: s)
            else filter (fun c => negb (isspace c)) (d :: s)).
    destruct (isspace c); simpl negb; cbv iota; [exact IH|].
    destruct (isspace d).
    + change (concat ([c] :: split_ws (d :: s)))
        with (c :: concat (split_ws (d :: s))).
      rewrite IH; reflexivity.
    + rewrite concat_cons_head, IH; reflexivity.
Qed.

(** A whitespace character separates the words on its two sides. *)
Lemma split_ws_app (a b : str) (sp : char) :
  isspace sp = true -> split_ws (a ++ sp :: b) = split_ws a ++ split_ws b.
Proof.
  intros Hsp. induction a as [|c a IH].
  - simpl. rewrite Hsp; reflexivity.
  - destruct a as [|d a].
    + change ([c] ++ sp :: b) with (c :: sp :: b).
      change ([] ++ sp :: b) with (sp :: b) in IH.
      change (split_ws [] ++ split_ws b) with (split_ws b) in IH.
      rewrite split_ws_cons2, Hsp, IH.
      simpl. destruct (isspace c); reflexivity.
    + change ((c :: d :: a) ++ sp :: b) with (c :: d :: (a ++ sp :: b)).
      rewrite !split_ws_cons2.
      change (d :: a ++ sp :: b) with ((d :: a) ++ sp :: b).
      rewrite IH.
      destruct (isspace c); [reflexivity|].
      destruct (isspace d) eqn:Ed; [reflexivity|].
      apply cons_head_app, split_ws_nonempty, Ed.
Qed.

(** A word is its own single token. *)
Lemma split_ws_word (w : str) : is_word w -> split_ws w = [w].
Proof.
  intros [Hne Hw]. induction w as [|c w IH]; [congruence|].
  simpl in Hw. apply andb_true_iff in Hw; destruct Hw as [Hc Hw].
  apply negb_true_iff in Hc.
  destruct w as [|d w].
  - simpl. rewrite Hc; reflexivity.
  - rewrite split_ws_cons2, Hc.
    assert (Hd : isspace d = false).
    { simpl in Hw. apply andb_true_iff in Hw.
      apply negb_true_iff, (proj1 Hw). }
    rewrite Hd, IH; [reflexivity | discriminate | exact Hw].
Qed.

End SplitFacts.

(** ** The sentence segmenter *)
Section Segmenter.

Import TextProcessor.

Lemma split_into_sentences_eq (text : str) :
  split_into_sentences text =
  map strip (filter (fun f => truthy (strip f)) (split_marker text)).
Proof.
  unfold split_into_sentences. destruct text; reflexivity.
Qed.

Lemma split_into_sentences_app (pre tail : str) :
  split_into_sentences (pre ++ marker ++ tail) =
  split_into_sentences pre ++ split_into_sentences tail.
Proof.
  rewrite !split_into_sentences_eq, split_marker_app, filter_app, map_app.
  reflexivity.
Qed.

Lemma split_into_sentences_single (tail : str) :
  contains tail marker = false -> strip tail <> [] ->
  split_into_sentences tail = [strip tail].
Proof.
  intros Hm Hs. rewrite split_into_sentences_eq, (split_marker_none _ Hm).
  simpl. destruct (strip tail) eqn:E; [congruence|].
  simpl. rewrite E. reflexivity.
Qed.

Lemma contains_strip (f : str) :
  contains f marker = false -> contains (strip f) marker = false.
Proof.
  intros H. destruct (contains (strip f) marker) eqn:E; [|reflexivity].
  apply contains_spec in E. destruct E as [pre [post E]].
  destruct (strip_spec f) as [l [r [Hf _]]].
  assert (Hc : contains f marker = true).
  { apply contains_spec. exists (l ++ pre), (post ++ r).
    rewrite Hf, E, <- !app_assoc. reflexivity. }
  congruence.
Qed.

Lemma truthy_nonempty (A : Type) (l : list A) : truthy l = true <-> l <> [].
Proof. destruct l; simpl; split; congruence. Qed.

Lemma split_into_sentences_sentences (text : str) :
  Forall is_sentence (split_into_sentences text).
Proof.
  rewrite split_into_sentences_eq.
  pose proof (split_marker_fragments text) as H.
  induction H as [|f frags Hf _ IH]; [constructor|].
  simpl. destruct (truthy (strip f)) eqn:E; [|exact IH].
  constructor; [|exact IH].
  destruct (strip_clean f) as [Hb He].
  repeat split; try assumption.
  - apply truthy_nonempty, E.
  - apply contains_strip, Hf.
Qed.

Lemma is_sentence_strip (s : str) : is_sentence s -> strip s = s.
Proof. intros (_ & Hb & He & _); apply strip_id; assumption. Qed.

Lemma sentences_kept (ss : list str) :
  Forall is_sentence ss ->
  map strip (filter (fun f => truthy (strip f)) ss) = ss.
Proof.
  induction 1 as [|s ss Hs _ IH]; [reflexivity|].
  pose proof (is_sentence_strip Hs) as E.
  destruct Hs as (Hne & _). apply truthy_nonempty in Hne.
  simpl. rewrite E, Hne. simpl. rewrite E, IH. reflexivity.
Qed.

Lemma split_into_sentences_join (ss : list str) :
  Forall is_sentence ss -> split_into_sentences (join marker ss) = ss.
Proof.
  intros H. destruct ss as [|s ss]; [reflexivity|].
  rewrite split_into_sentences_eq, split_marker_join.
  - apply sentences_kept, H.
  - discriminate.
  - eapply Forall_impl; [|exact H]. intros a (_ & _ & _ & Ha); exact Ha.
Qed.

(** C6.  [split_into_sentences] cuts the text at every period-space
    separator (the fragments joined by the separator give the text back, no
    fragment contains the separator, and that determines the fragments),
    strips the whitespace at both ends of each fragment, drops the fragments
    that are empty once stripped and keeps the others in their order.  It is
    a function defined on every text, it gives no sentence for the empty
    text, and the text after the last separator is the last sentence. *)
Theorem C6_split_into_sentences_spec :
  (forall text,
     join marker (split_marker text) = text
     /\ Forall (fun f => contains f marker = false) (split_marker text)
     /\ split_into_sentences text =
        map strip (filter (fun f => truthy (strip f)) (split_marker text)))
  /\ (forall parts, parts <> [] ->
       Forall (fun f => contains f marker = false) parts ->
       split_marker (join marker parts) = parts)
  /\ (forall f, exists l r,
       f = l ++ strip f ++ r
       /\ forallb isspace l = true /\ forallb isspace r = true
       /\ begins_clean (strip f) = true /\ ends_clean (strip f) = true)
  /\ split_into_sentences [] = []
  /\ (forall pre tail,
       contains tail marker = false -> strip tail <> [] ->
       split_into_sentences tail = [strip tail]
       /\ split_into_sentences (pre ++ marker ++ tail) =
          split_into_sentences pre ++ [strip tail]).
Proof.
  repeat split.
  - apply join_split_marker.
  - apply split_marker_fragments.
  - apply split_into_sentences_eq.
  - apply split_marker_join.
  - apply strip_spec.
  - apply split_into_sentences_single; assumption.
  - rewrite split_into_sentences_app.
    f_equal. apply split_into_sentences_single; assumption.
Qed.

Lemma C6_witness :
  split_into_sentences (u "Paris Fransa'nın başkentidir" ++ marker ++ u " Son cümle.")
  = split_into_sentences (u "Paris Fransa'nın başkentidir") ++ [u "Son cümle."].
Proof.
  refine (proj2 (proj2 (proj2 (proj2 (proj2 C6_split_into_sentences_spec)))
            (u "Paris Fransa'nın başkentidir") (u " Son cümle.") _ _)).
  - vm_compute; reflexivity.
  - vm_compute; discriminate.
Defined.

(** C7, as stated, fails: two sentences written one per line come back as a
    single sentence with the line break inside, since a line break is not a
    separator; and a line that ends without the separator but holds one
    inside is cut in two. *)
Lemma C7_one_per_line_counterexample :
  Forall is_sentence [u "Paris güzeldir"; u "Roma eskidir"]
  /\ split_into_sentences
       (join [10%N] [u "Paris güzeldir"; u "Roma eskidir"])
     = [u "Paris güzeldir" ++ [10%N] ++ u "Roma eskidir"]
  /\ List.length
       (split_into_sentences
          (join [10%N] [u "Paris güzeldir"; u "Roma eskidir"])) = 1%nat
  /\ split_into_sentences (u "Dr. Ali geldi") = [u "Dr"; u "Ali geldi"].
Proof.
  split; [|repeat split; vm_compute; reflexivity].
  repeat constructor; vm_compute; discriminate.
Qed.

(** C7, amended.  Segmentation is idempotent on segmented sentences: every
    sentence that [split_into_sentences] returns is not empty, has no
    whitespace at either end and holds no period-space separator; such a
    sentence, segmented on its own, comes back unchanged; and for every
    sequence of such sentences, joined by the separator, segmentation
    returns the sentences unchanged and in the same order. *)
Theorem C7_resegmentation :
  (forall text, Forall is_sentence (split_into_sentences text))
  /\ (forall s, is_sentence s -> split_into_sentences s = [s])
  /\ (forall ss, Forall is_sentence ss ->
       split_into_sentences (join marker ss) = ss)
  /\ (forall text,
       split_into_sentences (join marker (split_into_sentences text))
       = split_into_sentences text).
Proof.
  repeat split.
  - apply split_into_sentences_sentences.
  - intros s Hs.
    apply (split_into_sentences_join (ss := [s])). constructor; [exact Hs | constructor].
  - apply split_into_sentences_join.
  - intros text. apply split_into_sentences_join, split_into_sentences_sentences.
Qed.

Lemma C7_witness :
  split_into_sentences (join marker [u "Paris güzeldir"; u "Roma eskidir."])
  = [u "Paris güzeldir"; u "Roma eskidir."].
Proof.
  refine (proj1 (proj2 (proj2 C7_resegmentation)) _ _).
  repeat constructor; vm_compute; discriminate.
Defined.

End Segmenter.

(** ** The keyword extractor *)
Section Keywords.

Import TextProcessor.

Variable lower : str -> str.

Lemma is_stopword_spec (w : str) :
  is_stopword w = true <-> In w Config.STOPWORDS.
Proof.
  unfold is_stopword. rewrite existsb_exists. split.
  - intros [x [Hx E]]. apply str_eqb_eq in E. subst. exact Hx.
  - intros H. exists w. split; [exact H | apply str_eqb_refl].
Qed.

Lemma count_occ_filter (f : str -> bool) (l : list str) (w : str) :
  count_occ str_eq_dec (filter f l) w =
  if f w then count_occ str_eq_dec l w else 0%nat.
Proof.
  induction l as [|x l IH]; simpl.
  - destruct (f w); reflexivity.
  - destruct (f x) eqn:Ex; simpl; destruct (str_eq_dec x w) as [->|Hne];
      rewrite IH; try reflexivity.
    + rewrite Ex. reflexivity.
    + rewrite Ex. reflexivity.
Qed.

Lemma extract_keywords_all_stopwords (query : str) :
  Forall (fun w => In w Config.STOPWORDS) (split_ws (lower query)) ->
  extract_keywords lower query = [].
Proof.
  unfold extract_keywords. induction 1 as [|w ws Hw _ IH]; [reflexivity|].
  simpl. apply is_stopword_spec in Hw. rewrite Hw. exact IH.
Qed.

End Keywords.

(** C8.  [extract_keywords] lower-cases the query, splits it at whitespace
    into words, and removes exactly the words of the stop-word set: a word
    is in the result if and only if it is a word of the lower-cased query
    outside the set, as many times as it occurs there (nothing is merged or
    rewritten), in the same order.  The result is empty for the empty query
    and when every word is a stop word; for the query [nedir bu bilgi] it is
    the single word [bilgi]. *)
Theorem C8_extract_keywords_spec (lower : str -> str) :
  (forall query,
     TextProcessor.extract_keywords lower query =
     filter (fun w => negb (TextProcessor.is_stopword w))
       (split_ws (lower query)))
  /\ (forall query w,
       In w (TextProcessor.extract_keywords lower query) <->
       In w (split_ws (lower query)) /\ ~ In w Config.STOPWORDS)
  /\ (forall query w,
       count_occ str_eq_dec (TextProcessor.extract_keywords lower query) w =
       if TextProcessor.is_stopword w then 0%nat
       else count_occ str_eq_dec (split_ws (lower query)) w)
  /\ (forall text,
       Forall is_word (split_ws text)
       /\ concat (split_ws text) = filter (fun c => negb (isspace c)) text)
  /\ (forall a b sp, isspace sp = true ->
       split_ws (a ++ sp :: b) = split_ws a ++ split_ws b)
  /\ (forall w, is_word w -> split_ws w = [w])
  /\ (lower [] = [] -> TextProcessor.extract_keywords lower [] = [])
  /\ (forall query,
       Forall (fun w => In w Config.STOPWORDS) (split_ws (lower query)) ->
       TextProcessor.extract_keywords lower query = [])
  /\ (lower (u "nedir bu bilgi") = u "nedir bu bilgi" ->
       TextProcessor.extract_keywords lower (u "nedir bu bilgi")
       = [u "bilgi"]).
Proof.
  repeat match goal with |- _ /\ _ => split end.
  - reflexivity.
  - intros query w. unfold TextProcessor.extract_keywords.
    rewrite filter_In, negb_true_iff, <- is_stopword_spec.
    destruct (TextProcessor.is_stopword w); intuition congruence.
  - intros query w. unfold TextProcessor.extract_keywords.
    rewrite count_occ_filter.
    destruct (TextProcessor.is_stopword w); reflexivity.
  - intros text. split; [apply split_ws_words | apply split_ws_concat].
  - intros a b sp. apply split_ws_app.
  - apply split_ws_word.
  - intros H. unfold TextProcessor.extract_keywords. rewrite H. reflexivity.
  - apply extract_keywords_all_stopwords.
  - intros H. unfold TextProcessor.extract_keywords. rewrite H.
    vm_compute. reflexivity.
Qed.

Lemma C8_witness :
  TextProcessor.extract_keywords Examples.ascii_lower (u "nedir bu bilgi")
  = [u "bilgi"].
Proof.
  refine (proj2 (proj2 (proj2 (proj2 (proj2 (proj2 (proj2 (proj2
            (C8_extract_keywords_spec Examples.ascii_lower)))))))) _).
  vm_compute; reflexivity.
Defined.

(** ** The relevance gate *)
Section Gate.

Import RAGSystem.

Variable lower : str -> str.
Variable threshold : float.

Lemma is_sentence_relevant_spec (sentence : str) (kws : list str) :
  TextProcessor.is_sentence_relevant lower sentence kws = true <->
  kws <> [] /\ exists k, In k kws /\ occurs_in k (lower sentence).
Proof.
  unfold TextProcessor.is_sentence_relevant, occurs_in.
  rewrite existsb_exists. split.
  - intros [k [Hk Hc]]. split.
    + intros ->. destruct Hk.
    + exists k. split; [exact Hk | apply contains_spec, Hc].
  - intros [_ [k [Hk Hc]]]. exists k. split; [exact Hk | apply contains_spec, Hc].
Qed.

Lemma fold_filter_step (kws : list str) (cands : list (str * float))
  (acc : list str) :
  fold_left (filter_step lower threshold kws) cands acc =
  acc ++ map fst (filter (admission_test lower threshold kws) cands).
Proof.
  revert acc. induction cands as [|[s d] cands IH]; intros acc; simpl.
  - symmetry; apply app_nil_r.
  - rewrite IH. unfold admission_test at 2. simpl.
    destruct (TextProcessor.is_sentence_relevant lower s kws
              && (d <=? threshold)%float); simpl.
    + rewrite <- app_assoc. reflexivity.
    + reflexivity.
Qed.

Lemma filter_relevant_eq (sentences : list str) (distances : list float)
  (kws : list str) :
  filter_relevant lower threshold sentences distances kws =
  map fst (filter (admission_test lower threshold kws) (combine sentences distances)).
Proof. unfold filter_relevant. apply fold_filter_step. Qed.

Lemma filter_relevant_no_keywords (sentences : list str)
  (distances : list float) :
  filter_relevant lower threshold sentences distances [] = [].
Proof.
  rewrite filter_relevant_eq.
  induction (combine sentences distances) as [|c l IH]; [reflexivity|].
  simpl. exact IH.
Qed.

Lemma combine_app_same (A B : Type) (l1 l2 : list A) (m1 m2 : list B) :
  List.length l1 = List.length m1 ->
  combine (l1 ++ l2) (m1 ++ m2) = combine l1 m1 ++ combine l2 m2.
Proof.
  revert m1. induction l1 as [|a l1 IH]; intros [|b m1] H;
    try discriminate H; simpl; [reflexivity|].
  f_equal. apply IH. injection H; auto.
Qed.

Lemma filter_relevant_app (ss1 ss2 : list str) (ds1 ds2 : list float)
  (kws : list str) :
  List.length ss1 = List.length ds1 ->
  filter_relevant lower threshold (ss1 ++ ss2) (ds1 ++ ds2) kws =
  filter_relevant lower threshold ss1 ds1 kws
  ++ filter_relevant lower threshold ss2 ds2 kws.
Proof.
  intros H. rewrite !filter_relevant_eq, combine_app_same by exact H.
  rewrite filter_app, map_app. reflexivity.
Qed.

Lemma nan_leb (d x : float) : is_nan d -> (d <=? x)%float = false.
Proof.
  unfold is_nan. intros H. rewrite leb_spec, H. reflexivity.
Qed.

Lemma nan_ltb_r (d x : float) : is_nan d -> (x <? d)%float = false.
Proof.
  unfold is_nan. intros H. rewrite ltb_spec, H.
  destruct (Prim2SF x); reflexivity.
Qed.

Lemma filter_relevant_truncate (ss : list str) (ds : list float)
  (kws : list str) :
  filter_relevant lower threshold ss ds kws =
  filter_relevant lower threshold
    (firstn (Nat.min (List.length ss) (List.length ds)) ss)
    (firstn (Nat.min (List.length ss) (List.length ds)) ds) kws.
Proof.
  unfold filter_relevant. f_equal.
  rewrite <- combine_firstn, <- length_combine. symmetry. apply firstn_all.
Qed.

(** The two subscripted reads at the head of the gate never fail. *)
Lemma guarded_first_row (A : Type) (rows : option (list (list A))) :
  (if truthy_opt rows then subscript0 rows else Ok []) = Ok (first_row rows).
Proof. destruct rows as [[|row rows]|]; reflexivity. Qed.

Lemma not_found_test_spec (relevant : list str) (distances : list float) :
  exists b, not_found_test threshold relevant distances = Ok b
    /\ (b = true <-> vetoed_at threshold relevant distances).
Proof.
  unfold not_found_test, vetoed_at.
  destruct relevant as [|r relevant]; simpl.
  - exists true. split; [reflexivity|]. split; auto.
  - destruct distances as [|d0 rest]; simpl.
    + exists false. split; [reflexivity|]. split; [discriminate|].
      intros [H | (d & l & H & _)]; discriminate H.
    + exists (threshold <? d0)%float. split; [reflexivity|]. split.
      * intros H. right. exists d0, rest. split; [reflexivity | exact H].
      * intros [H | (d & l & H & Hd)]; [discriminate H|].
        injection H as -> _. exact Hd.
Qed.

Lemma relevance_gate_spec (qr : Chroma.QueryResult) (kws : list str) :
  exists dec, relevance_gate lower threshold qr kws = Ok dec
    /\ admitted dec =
       filter_relevant lower threshold
         (map Chroma.text (first_row (Chroma.metadatas qr)))
         (first_row (Chroma.distances qr)) kws
    /\ (answerable dec = false <->
        vetoed_at threshold (admitted dec) (first_row (Chroma.distances qr))).
Proof.
  unfold relevance_gate.
  rewrite guarded_first_row. cbn [bind].
  assert (Hsel :
    (if truthy_opt (Chroma.metadatas qr)
     then row <- subscript0 (Chroma.metadatas qr) ;; Ok (map Chroma.text row)
     else Ok []) = Ok (map Chroma.text (first_row (Chroma.metadatas qr)))).
  { destruct (Chroma.metadatas qr) as [[|row rows]|]; reflexivity. }
  rewrite Hsel. cbn [bind].
  destruct (not_found_test_spec
    (filter_relevant lower threshold
       (map Chroma.text (first_row (Chroma.metadatas qr)))
       (first_row (Chroma.distances qr)) kws)
    (first_row (Chroma.distances qr))) as [b [Hb Hv]].
  rewrite Hb. cbn [bind].
  eexists. split; [reflexivity|]. split; [reflexivity|].
  cbn [admitted answerable]. rewrite negb_false_iff. exact Hv.
Qed.

End Gate.

(** C1.  The filtering loop admits a candidate if and only if the keyword
    list is not empty and some keyword occurs in the lower-cased text of the
    candidate, and the distance of the candidate is at most the threshold;
    the admitted sentences are the texts of the candidates that pass, in the
    order of the input; with no keyword, nothing is admitted. *)
Theorem C1_gate_admission (lower : str -> str) (threshold : float)
  (sentences : list str) (distances : list float) (kws : list str) :
  exists pass : str * float -> bool,
    (forall s d,
       pass (s, d) = true <->
       (kws <> [] /\ exists k, In k kws /\ occurs_in k (lower s))
       /\ (d <=? threshold)%float = true)
    /\ RAGSystem.filter_relevant lower threshold sentences distances kws =
       map fst (filter pass (combine sentences distances))
    /\ RAGSystem.filter_relevant lower threshold sentences distances [] = [].
Proof.
  exists (admission_test lower threshold kws). repeat split.
  - unfold admission_test in H. apply andb_true_iff in H.
    apply (is_sentence_relevant_spec lower s kws), (proj1 H).
  - unfold admission_test in H. apply andb_true_iff in H.
    apply (is_sentence_relevant_spec lower s kws), (proj1 H).
  - unfold admission_test in H. apply andb_true_iff in H. apply (proj2 H).
  - intros [Hk Hd]. unfold admission_test. apply andb_true_iff. split.
    + apply is_sentence_relevant_spec, Hk.
    + exact Hd.
  - apply filter_relevant_eq.
  - apply filter_relevant_no_keywords.
Qed.

(** ** The orchestrator *)
Section Orchestrator.

Import RAGSystem.

Variable lower : str -> str.
Variable requests_post : PostRequest -> result Response.
Variable query_similar : str -> Chroma.QueryResult.
Variable threshold : float.

Lemma generate_answer_requests (question : str) (context : list str) :
  context <> [] ->
  snd (LLMService.generate_answer requests_post question context) =
  [LLMService.build_request
     (LLMService.build_prompt question (join (u " ") context))].
Proof.
  intros H. unfold LLMService.generate_answer.
  destruct context as [|c context]; [congruence|].
  cbn [truthy negb].
  destruct (LLMService.attempt requests_post _) as [answer|e]; [reflexivity|].
  destruct (isinstance_ConnectionError e); reflexivity.
Qed.

Lemma process_query_spec (query : str) :
  let distances := first_row (Chroma.distances (query_similar query)) in
  let relevant :=
    filter_relevant lower threshold
      (map Chroma.text (first_row (Chroma.metadatas (query_similar query))))
      distances (TextProcessor.extract_keywords lower query) in
  exists answer requests,
    process_query lower requests_post query_similar threshold query
    = Ok (answer, requests)
    /\ (vetoed_at threshold relevant distances ->
        answer = LLMService.NOT_FOUND /\ requests = [])
    /\ (~ vetoed_at threshold relevant distances ->
        (answer, requests) =
        LLMService.generate_answer requests_post query relevant
        /\ requests =
           [LLMService.build_request
              (LLMService.build_prompt query (join (u " ") relevant))]).
Proof.
  intros distances relevant. unfold process_query.
  destruct (relevance_gate_spec lower threshold (query_similar query)
              (TextProcessor.extract_keywords lower query))
    as (dec & Hdec & Hadm & Hans).
  rewrite Hdec. cbn [bind].
  fold distances in Hadm, Hans. fold relevant in Hadm. rewrite Hadm in *.
  destruct (answerable dec) eqn:E; cbn [negb].
  - assert (Hnv : ~ vetoed_at threshold relevant distances).
    { intros Hv. apply Hans in Hv. discriminate Hv. }
    destruct (LLMService.generate_answer requests_post query relevant)
      as [answer requests] eqn:G.
    exists answer, requests. split; [reflexivity|]. split; [tauto|].
    intros _. split; [reflexivity|].
    change requests with (snd (answer, requests)). rewrite <- G.
    apply generate_answer_requests.
    intros Hr. apply Hnv. left. exact Hr.
  - exists LLMService.NOT_FOUND, []. split; [reflexivity|].
    split; [auto|]. intros Hnv. exfalso. apply Hnv, Hans. reflexivity.
Qed.

End Orchestrator.

(** C2.  [process_query] returns the fixed sentence [Bunu bulamadım.]
    without sending anything to the synthesizer if and only if no candidate
    was admitted or the distance of the first candidate is above the
    threshold; otherwise exactly one request goes to the synthesizer.  The
    test reads the first distance whether or not the first candidate was
    admitted: there is an input where a later candidate is admitted and the
    answer is still the fixed sentence. *)
Theorem C2_not_found_iff :
  (forall (lower : str -> str) requests_post query_similar threshold query,
     let distances := first_row (Chroma.distances (query_similar query)) in
     let relevant :=
       RAGSystem.filter_relevant lower threshold
         (map Chroma.text
            (first_row (Chroma.metadatas (query_similar query))))
         distances (TextProcessor.extract_keywords lower query) in
     exists answer requests,
       RAGSystem.process_query lower requests_post query_similar threshold
         query = Ok (answer, requests)
       /\ ((answer = LLMService.NOT_FOUND /\ requests = []) <->
           (relevant = []
            \/ exists d0 rest,
                 distances = d0 :: rest /\ (threshold <? d0)%float = true))
       /\ (requests = [] \/
           requests =
           [LLMService.build_request
              (LLMService.build_prompt query (join (u " ") relevant))]))
  /\ (RAGSystem.filter_relevant Examples.ascii_lower
        Config.RELEVANCE_THRESHOLD
        [u "araba hızlıdır"; u "elma kırmızıdır"] [0.9; 0.2]%float
        (TextProcessor.extract_keywords Examples.ascii_lower (u "elma"))
      = [u "elma kırmızıdır"]
      /\ RAGSystem.process_query Examples.ascii_lower
           (Examples.replying (JObject [(u "response", JString (u "Evet"))]))
           (fun _ => Examples.far_first_results)
           Config.RELEVANCE_THRESHOLD (u "elma")
         = Ok (LLMService.NOT_FOUND, [])).
Proof.
  split.
  - intros lower requests_post query_similar threshold query distances relevant.
    destruct (process_query_spec lower requests_post query_similar threshold
                query) as (answer & requests & Hq & Hv & Hnv).
    fold distances in Hv, Hnv. fold relevant in Hv, Hnv.
    exists answer, requests. split; [exact Hq|]. split.
    + split.
      * intros [_ Hr].
        destruct relevant as [|r relevant'] eqn:Er; [left; reflexivity|].
        destruct distances as [|d0 rest] eqn:Ed.
        -- exfalso.
           assert (Hn : ~ vetoed_at threshold (r :: relevant') []).
           { intros [H | (d & l & H & _)]; discriminate H. }
           destruct (Hnv Hn) as [_ Hreq]. rewrite Hr in Hreq. discriminate Hreq.
        -- destruct (threshold <? d0)%float eqn:Et.
           ++ right. exists d0, rest. split; [reflexivity | exact Et].
           ++ exfalso.
              assert (Hn : ~ vetoed_at threshold (r :: relevant') (d0 :: rest)).
              { intros [H | (d & l & H & Hd)]; [discriminate H|].
                injection H as <- _. congruence. }
              destruct (Hnv Hn) as [_ Hreq]. rewrite Hr in Hreq.
              discriminate Hreq.
      * exact Hv.
    + destruct relevant as [|r relevant'] eqn:Er.
      * left. apply Hv. left. reflexivity.
      * destruct distances as [|d0 rest] eqn:Ed.
        -- right. apply Hnv. intros [H | (d & l & H & _)]; discriminate H.
        -- destruct (threshold <? d0)%float eqn:Et.
           ++ left. apply Hv. right. exists d0, rest. split; [reflexivity | exact Et].
           ++ right. apply Hnv. intros [H | (d & l & H & Hd)]; [discriminate H|].
              injection H as <- _. congruence.
  - split; vm_compute; reflexivity.
Qed.

(** C3.  The relevance gate always returns a decision, whatever the query
    results are: the guarded subscripts never fail.  With no candidate the
    decision is "nothing admitted, not answerable".  A candidate whose
    distance is not a number is not admitted and the candidates after it are
    still examined.  When the sentence list and the distance list differ in
    length, the candidates are the pairs up to the shorter length and the
    rest is skipped. *)
Theorem C3_gate_total (lower : str -> str) (threshold : float) :
  (forall qr kws,
     exists dec,
       RAGSystem.relevance_gate lower threshold qr kws = Ok dec
       /\ RAGSystem.admitted dec =
          RAGSystem.filter_relevant lower threshold
            (map Chroma.text (first_row (Chroma.metadatas qr)))
            (first_row (Chroma.distances qr)) kws)
  /\ (forall qr kws,
       first_row (Chroma.metadatas qr) = []
       \/ first_row (Chroma.distances qr) = [] ->
       RAGSystem.relevance_gate lower threshold qr kws =
       Ok {| RAGSystem.admitted := []; RAGSystem.answerable := false |})
  /\ (forall ss1 ds1 s d ss2 ds2 kws,
       List.length ss1 = List.length ds1 -> is_nan d ->
       RAGSystem.filter_relevant lower threshold
         (ss1 ++ s :: ss2) (ds1 ++ d :: ds2) kws =
       RAGSystem.filter_relevant lower threshold ss1 ds1 kws
       ++ RAGSystem.filter_relevant lower threshold ss2 ds2 kws)
  /\ (forall ss ds kws,
       RAGSystem.filter_relevant lower threshold ss ds kws =
       RAGSystem.filter_relevant lower threshold
         (firstn (Nat.min (List.length ss) (List.length ds)) ss)
         (firstn (Nat.min (List.length ss) (List.length ds)) ds) kws).
Proof.
  repeat match goal with |- _ /\ _ => split end.
  - intros qr kws.
    destruct (relevance_gate_spec lower threshold qr kws)
      as (dec & Hdec & Hadm & _).
    exists dec. split; assumption.
  - intros qr kws Hempty.
    destruct (relevance_gate_spec lower threshold qr kws)
      as (dec & Hdec & Hadm & Hans).
    assert (Hnil : RAGSystem.admitted dec = []).
    { rewrite Hadm. unfold RAGSystem.filter_relevant.
      destruct Hempty as [-> | ->]; [reflexivity|].
      rewrite combine_nil. reflexivity. }
    rewrite Hdec. f_equal.
    assert (Hfalse : RAGSystem.answerable dec = false).
    { apply Hans. left. exact Hnil. }
    destruct dec as [adm ans]. simpl in Hnil, Hfalse. subst. reflexivity.
  - intros ss1 ds1 s d ss2 ds2 kws Hlen Hnan.
    rewrite filter_relevant_app by exact Hlen. f_equal.
    change (s :: ss2) with ([s] ++ ss2). change (d :: ds2) with ([d] ++ ds2).
    rewrite filter_relevant_app by reflexivity.
    unfold RAGSystem.filter_relevant at 1. simpl.
    rewrite (nan_leb threshold Hnan), andb_false_r. reflexivity.
  - apply filter_relevant_truncate.
Qed.

Lemma C3_witness :
  RAGSystem.filter_relevant Examples.ascii_lower Config.RELEVANCE_THRESHOLD
    ([u "elma yeşildir"] ++ u "elma tatlıdır" :: [u "elma kırmızıdır"])
    ([0.1%float] ++ nan :: [0.2%float]) [u "elma"]
  = RAGSystem.filter_relevant Examples.ascii_lower Config.RELEVANCE_THRESHOLD
      [u "elma yeşildir"] [0.1%float] [u "elma"]
    ++ RAGSystem.filter_relevant Examples.ascii_lower
         Config.RELEVANCE_THRESHOLD [u "elma kırmızıdır"] [0.2%float]
         [u "elma"].
Proof.
  refine (proj1 (proj2 (proj2
            (C3_gate_total Examples.ascii_lower Config.RELEVANCE_THRESHOLD)))
            _ _ _ _ _ _ _ _ _).
  - reflexivity.
  - vm_compute; reflexivity.
Defined.

(** ** The answer synthesizer *)
Section Synthesizer.

Import LLMService.

Variable requests_post : PostRequest -> result Response.

Lemma generate_answer_empty (question : str) :
  generate_answer requests_post question [] = (NOT_FOUND, []).
Proof. reflexivity. Qed.

Lemma generate_answer_attempt (question : str) (context : list str) :
  context <> [] ->
  generate_answer requests_post question context =
  (match attempt requests_post (request_for question context) with
   | Ok answer => answer
   | Raise e => fallback_for e
   end, [request_for question context]).
Proof.
  intros H. unfold generate_answer, request_for, fallback_for.
  destruct context as [|c context]; [congruence|].
  cbn [truthy negb].
  destruct (attempt requests_post _) as [answer|e]; [reflexivity|].
  destruct (isinstance_ConnectionError e); reflexivity.
Qed.

Lemma attempt_post_raises (request : PostRequest) (e : exn) :
  requests_post request = Raise e -> attempt requests_post request = Raise e.
Proof. intros H. unfold attempt. rewrite H. reflexivity. Qed.

Lemma attempt_status_raises (request : PostRequest) (response : Response)
  (e : exn) :
  requests_post request = Ok response ->
  raise_for_status response = Raise e ->
  attempt requests_post request = Raise e.
Proof. intros H1 H2. unfold attempt. rewrite H1. cbn [bind]. rewrite H2. reflexivity. Qed.

Lemma attempt_json (request : PostRequest) (response : Response) :
  requests_post request = Ok response ->
  raise_for_status response = Ok tt ->
  attempt requests_post request =
  (document <- json response ;;
   answer <- get document (u "response") (JString NOT_FOUND) ;;
   strip_method answer).
Proof. intros H1 H2. unfold attempt. rewrite H1. cbn [bind]. rewrite H2. reflexivity. Qed.

Lemma strip_NOT_FOUND : strip NOT_FOUND = NOT_FOUND.
Proof. vm_compute. reflexivity. Qed.

End Synthesizer.

Section Session.

Import RAGSystem.

Variable lower : str -> str.
Variable requests_post : PostRequest -> result Response.
Variable query_similar : str -> Chroma.QueryResult.
Variable threshold : float.

Lemma process_query_total (query : str) :
  exists answer requests,
    process_query lower requests_post query_similar threshold query
    = Ok (answer, requests).
Proof.
  destruct (process_query_spec lower requests_post query_similar threshold
              query) as (answer & requests & H & _).
  exists answer, requests. exact H.
Qed.

(** The question loop ends by the exit command or at the end of the input,
    never on a query. *)
Lemma query_loop_ending (inputs : list str) :
  snd (query_loop lower requests_post query_similar threshold inputs) = Exited
  \/ snd (query_loop lower requests_post query_similar threshold inputs)
     = Crashed EOFError.
Proof.
  induction inputs as [|line rest IH]; [right; reflexivity|].
  simpl. destruct (str_eqb (lower line) (u "çık")); [left; reflexivity|].
  destruct (process_query_total line) as (answer & requests & H).
  rewrite H.
  destruct (query_loop lower requests_post query_similar threshold rest)
    as [answers ending].
  exact IH.
Qed.

(** Every question typed before the exit command is answered. *)
Lemma query_loop_answers (queries : list str) (line : str)
  (rest : list str) :
  Forall (fun q => is_exit lower q = false) queries ->
  is_exit lower line = true ->
  exists answers,
    query_loop lower requests_post query_similar threshold
      (queries ++ line :: rest) = (answers, Exited)
    /\ List.length answers = List.length queries.
Proof.
  unfold is_exit. intros Hq Hline.
  induction Hq as [|q queries Hqe _ IH].
  - simpl. rewrite Hline. exists []. split; reflexivity.
  - destruct IH as (answers & Hloop & Hlen).
    destruct (process_query_total q) as (answer & requests & H).
    exists (answer :: answers). simpl. rewrite Hqe, H, Hloop.
    split; [reflexivity | simpl; rewrite Hlen; reflexivity].
Qed.

End Session.

(** C4, as stated, fails: there are two fallback sentences, not three.  A
    read timeout gets the sentence of any other failure, and a connect
    timeout gets the sentence of a connection failure. *)
Lemma C4_timeout_counterexample :
  fst (LLMService.generate_answer (Examples.failing ReadTimeout)
         (u "soru") [u "bilgi"])
  = fst (LLMService.generate_answer (Examples.failing OtherException)
           (u "soru") [u "bilgi"])
  /\ fst (LLMService.generate_answer (Examples.failing ConnectTimeout)
            (u "soru") [u "bilgi"])
     = fst (LLMService.generate_answer (Examples.failing ConnectionError)
              (u "soru") [u "bilgi"])
  /\ isinstance_Timeout ReadTimeout = true
  /\ isinstance_Timeout ConnectTimeout = true.
Proof. repeat split. Qed.

(** C4, amended.  Every failure of the synthesis is caught and mapped to one
    of two fixed sentences, which differ from each other and from the "not
    found" sentence: a connection failure (a connect timeout is one) gives
    the connection sentence, and any other failure (a read timeout, an error
    status, a body that is not JSON, a document that is not an object, an
    answer that is not a string) gives the generic sentence.  None of them
    ends the session: [process_query] always returns an answer, every
    question typed before the exit command is answered, and the question
    loop ends only by the exit command or at the end of the input. *)
Theorem C4_synthesis_fallbacks :
  (forall requests_post question context e,
     context <> [] ->
     requests_post (request_for question context) = Raise e ->
     LLMService.generate_answer requests_post question context =
     (fallback_for e, [request_for question context]))
  /\ (forall requests_post question context response e,
       context <> [] ->
       requests_post (request_for question context) = Ok response ->
       raise_for_status response = Raise e
       \/ (raise_for_status response = Ok tt /\ json response = Raise e) ->
       LLMService.generate_answer requests_post question context =
       (fallback_for e, [request_for question context]))
  /\ (forall requests_post question context response document,
       context <> [] ->
       requests_post (request_for question context) = Ok response ->
       raise_for_status response = Ok tt ->
       json response = Ok document ->
       (forall fields, document <> JObject fields)
       \/ (exists fields v,
             document = JObject fields
             /\ dict_lookup (u "response") fields = Some v
             /\ forall s, v <> JString s) ->
       LLMService.generate_answer requests_post question context =
       (LLMService.ERROR_FALLBACK, [request_for question context]))
  /\ (fallback_for ConnectionError = LLMService.CONNECTION_FALLBACK
      /\ fallback_for ConnectTimeout = LLMService.CONNECTION_FALLBACK
      /\ fallback_for ReadTimeout = LLMService.ERROR_FALLBACK
      /\ forall e, isinstance_ConnectionError e = false ->
           fallback_for e = LLMService.ERROR_FALLBACK)
  /\ (LLMService.CONNECTION_FALLBACK <> LLMService.ERROR_FALLBACK
      /\ LLMService.CONNECTION_FALLBACK <> LLMService.NOT_FOUND
      /\ LLMService.ERROR_FALLBACK <> LLMService.NOT_FOUND)
  /\ (forall lower requests_post query_similar threshold query,
       exists answer requests,
         RAGSystem.process_query lower requests_post query_similar threshold
           query = Ok (answer, requests))
  /\ (forall lower requests_post query_similar threshold inputs,
       snd (RAGSystem.query_loop lower requests_post query_similar threshold
              inputs) = RAGSystem.Exited
       \/ snd (RAGSystem.query_loop lower requests_post query_similar
                 threshold inputs) = RAGSystem.Crashed EOFError)
  /\ (forall lower requests_post query_similar threshold queries line rest,
       Forall (fun q => is_exit lower q = false) queries ->
       is_exit lower line = true ->
       exists answers,
         RAGSystem.query_loop lower requests_post query_similar threshold
           (queries ++ line :: rest) = (answers, RAGSystem.Exited)
         /\ List.length answers = List.length queries).
Proof.
  repeat match goal with |- _ /\ _ => split end.
  - intros post q ctx e Hctx Hpost.
    rewrite generate_answer_attempt by exact Hctx.
    rewrite (attempt_post_raises _ _ Hpost). reflexivity.
  - intros post q ctx response e Hctx Hpost [Hst | [Hst Hjs]].
    + rewrite generate_answer_attempt by exact Hctx.
      rewrite (attempt_status_raises _ _ Hpost Hst). reflexivity.
    + rewrite generate_answer_attempt by exact Hctx.
      rewrite (attempt_json _ _ Hpost Hst), Hjs. reflexivity.
  - intros post q ctx response document Hctx Hpost Hst Hjs Hbad.
    rewrite generate_answer_attempt by exact Hctx.
    rewrite (attempt_json _ _ Hpost Hst), Hjs. cbn [bind].
    destruct Hbad as [Hobj | (fields & v & -> & Hv & Hstr)].
    + destruct document; try reflexivity. exfalso. eapply Hobj. reflexivity.
    + cbn [get]. rewrite Hv. cbn [bind].
      destruct v; try reflexivity. exfalso. eapply Hstr. reflexivity.
  - reflexivity.
  - reflexivity.
  - reflexivity.
  - intros e He. unfold fallback_for. rewrite He. reflexivity.
  - vm_compute. discriminate.
  - vm_compute. discriminate.
  - vm_compute. discriminate.
  - apply process_query_total.
  - apply query_loop_ending.
  - apply query_loop_answers.
Qed.

Lemma C4_witness :
  LLMService.generate_answer (Examples.failing ReadTimeout) (u "soru")
    [u "bilgi"]
  = (fallback_for ReadTimeout, [request_for (u "soru") [u "bilgi"]]).
Proof.
  apply (proj1 C4_synthesis_fallbacks (Examples.failing ReadTimeout)
           (u "soru") [u "bilgi"] ReadTimeout).
  - vm_compute; discriminate.
  - reflexivity.
Defined.

(** ** The answerable path and the shared sentinel *)
Section Answerable.

Import RAGSystem.

Variable lower : str -> str.
Variable requests_post : PostRequest -> result Response.
Variable query_similar : str -> Chroma.QueryResult.
Variable threshold : float.

Lemma answerable_admits (qr : Chroma.QueryResult) (kws : list str)
  (dec : RelevanceDecision) :
  relevance_gate lower threshold qr kws = Ok dec ->
  answerable dec = true -> admitted dec <> [].
Proof.
  intros Hdec Hans Hnil.
  destruct (relevance_gate_spec lower threshold qr kws)
    as (dec' & Hdec' & _ & Hv).
  rewrite Hdec in Hdec'. injection Hdec' as <-.
  assert (H : answerable dec = false) by (apply Hv; left; exact Hnil).
  congruence.
Qed.

Lemma process_query_answerable (query : str) (dec : RelevanceDecision) :
  relevance_gate lower threshold (query_similar query)
    (TextProcessor.extract_keywords lower query) = Ok dec ->
  answerable dec = true ->
  process_query lower requests_post query_similar threshold query =
  Ok (LLMService.generate_answer requests_post query (admitted dec)).
Proof.
  intros Hdec Hans. unfold process_query. rewrite Hdec. cbn [bind].
  rewrite Hans. reflexivity.
Qed.

Lemma process_query_not_answerable (query : str) (dec : RelevanceDecision) :
  relevance_gate lower threshold (query_similar query)
    (TextProcessor.extract_keywords lower query) = Ok dec ->
  answerable dec = false ->
  process_query lower requests_post query_similar threshold query =
  Ok (LLMService.NOT_FOUND, []).
Proof.
  intros Hdec Hans. unfold process_query. rewrite Hdec. cbn [bind].
  rewrite Hans. reflexivity.
Qed.

Lemma generate_answer_success (question : str) (context : list str)
  (response : Response) (fields : list (str * JSON)) (s : str) :
  context <> [] ->
  requests_post (request_for question context) = Ok response ->
  raise_for_status response = Ok tt ->
  json response = Ok (JObject fields) ->
  dict_lookup (u "response") fields = Some (JString s) ->
  LLMService.generate_answer requests_post question context =
  (strip s, [request_for question context]).
Proof.
  intros Hctx Hpost Hst Hjs Hf.
  rewrite generate_answer_attempt by exact Hctx.
  rewrite (attempt_json _ _ Hpost Hst), Hjs. cbn [bind get].
  rewrite Hf. reflexivity.
Qed.

Lemma generate_answer_no_field (question : str) (context : list str)
  (response : Response) (fields : list (str * JSON)) :
  context <> [] ->
  requests_post (request_for question context) = Ok response ->
  raise_for_status response = Ok tt ->
  json response = Ok (JObject fields) ->
  dict_lookup (u "response") fields = None ->
  LLMService.generate_answer requests_post question context =
  (LLMService.NOT_FOUND, [request_for question context]).
Proof.
  intros Hctx Hpost Hst Hjs Hf.
  rewrite generate_answer_attempt by exact Hctx.
  rewrite (attempt_json _ _ Hpost Hst), Hjs. cbn [bind get].
  rewrite Hf. cbn [bind strip_method]. rewrite strip_NOT_FOUND. reflexivity.
Qed.

End Answerable.

(** C5, as stated, fails: the answer of the synthesizer is stripped of the
    whitespace at its ends before it is returned. *)
Lemma C5_strip_counterexample :
  RAGSystem.relevance_gate Examples.ascii_lower Config.RELEVANCE_THRESHOLD
    Examples.elma_results
    (TextProcessor.extract_keywords Examples.ascii_lower (u "elma"))
  = Ok {| RAGSystem.admitted := [u "elma kırmızıdır"];
          RAGSystem.answerable := true |}
  /\ RAGSystem.process_query Examples.ascii_lower
       (Examples.replying
          (JObject [(u "response", JString (u " Evet, elma kırmızıdır. "))]))
       (fun _ => Examples.elma_results) Config.RELEVANCE_THRESHOLD (u "elma")
     = Ok (u "Evet, elma kırmızıdır.",
           [request_for (u "elma") [u "elma kırmızıdır"]])
  /\ str_eqb (u "Evet, elma kırmızıdır.") (u " Evet, elma kırmızıdır. ")
     = false.
Proof. repeat split; vm_compute; reflexivity. Qed.

(** C5, amended.  When the gate decides that the query is answerable,
    [process_query] joins the admitted sentences with single spaces, sends
    exactly one request to the synthesizer, whose prompt holds the query and
    that context, and, when the synthesizer answers with a string, returns
    that string stripped of the whitespace at its two ends; an answer with
    no whitespace at its ends is returned unchanged. *)
Theorem C5_answerable_path (lower : str -> str)
  (requests_post : PostRequest -> result Response)
  (query_similar : str -> Chroma.QueryResult) (threshold : float)
  (query : str) (dec : RAGSystem.RelevanceDecision) :
  RAGSystem.relevance_gate lower threshold (query_similar query)
    (TextProcessor.extract_keywords lower query) = Ok dec ->
  RAGSystem.answerable dec = true ->
  let context := join (u " ") (RAGSystem.admitted dec) in
  let request := LLMService.build_request
                   (LLMService.build_prompt query context) in
  json_prompt request =
    u "Soru: " ++ query ++ [10%N] ++ u "Bağlam: " ++ context ++ [10%N]
      ++ u "Yanıt:"
  /\ (exists answer,
        RAGSystem.process_query lower requests_post query_similar threshold
          query = Ok (answer, [request]))
  /\ (forall response fields s,
        requests_post request = Ok response ->
        raise_for_status response = Ok tt ->
        json response = Ok (JObject fields) ->
        dict_lookup (u "response") fields = Some (JString s) ->
        RAGSystem.process_query lower requests_post query_similar threshold
          query = Ok (strip s, [request])
        /\ (begins_clean s = true -> ends_clean s = true ->
            RAGSystem.process_query lower requests_post query_similar
              threshold query = Ok (s, [request]))).
Proof.
  intros Hdec Hans context request.
  pose proof (@answerable_admits lower threshold _ _ dec Hdec Hans) as Hne.
  pose proof (@process_query_answerable lower requests_post query_similar
                threshold query dec Hdec Hans) as Hq.
  split; [reflexivity|]. split.
  - rewrite Hq, generate_answer_attempt by exact Hne.
    eexists. reflexivity.
  - intros response fields s Hpost Hst Hjs Hf.
    rewrite Hq.
    rewrite (@generate_answer_success requests_post query
               (RAGSystem.admitted dec) response fields s
               Hne Hpost Hst Hjs Hf).
    split; [reflexivity|].
    intros Hb He. rewrite (strip_id _ Hb He). reflexivity.
Qed.

Lemma C5_witness :
  let request := LLMService.build_request
                   (LLMService.build_prompt (u "elma")
                      (join (u " ") [u "elma kırmızıdır"])) in
  json_prompt request =
    u "Soru: " ++ u "elma" ++ [10%N] ++ u "Bağlam: "
      ++ join (u " ") [u "elma kırmızıdır"] ++ [10%N] ++ u "Yanıt:"
  /\ (exists answer,
        RAGSystem.process_query Examples.ascii_lower
          (Examples.replying
             (JObject [(u "response", JString (u " Evet. "))]))
          (fun _ => Examples.elma_results) Config.RELEVANCE_THRESHOLD
          (u "elma") = Ok (answer, [request]))
  /\ (forall response fields s,
        Examples.replying
          (JObject [(u "response", JString (u " Evet. "))]) request
        = Ok response ->
        raise_for_status response = Ok tt ->
        json response = Ok (JObject fields) ->
        dict_lookup (u "response") fields = Some (JString s) ->
        RAGSystem.process_query Examples.ascii_lower
          (Examples.replying
             (JObject [(u "response", JString (u " Evet. "))]))
          (fun _ => Examples.elma_results) Config.RELEVANCE_THRESHOLD
          (u "elma") = Ok (strip s, [request])
        /\ (begins_clean s = true -> ends_clean s = true ->
            RAGSystem.process_query Examples.ascii_lower
              (Examples.replying
                 (JObject [(u "response", JString (u " Evet. "))]))
              (fun _ => Examples.elma_results) Config.RELEVANCE_THRESHOLD
              (u "elma") = Ok (s, [request]))).
Proof.
  apply (@C5_answerable_path Examples.ascii_lower
           (Examples.replying
              (JObject [(u "response", JString (u " Evet. "))]))
           (fun _ => Examples.elma_results) Config.RELEVANCE_THRESHOLD
           (u "elma")
           {| RAGSystem.admitted := [u "elma kırmızıdır"];
              RAGSystem.answerable := true |}).
  - vm_compute; reflexivity.
  - reflexivity.
Defined.

(** C10.  [generate_answer] returns the sentence [Bunu bulamadım.] when it
    is called with no context sentence (and then sends nothing), and when
    the synthesizer answers with a JSON object that has no [response] field;
    it is the very sentence that [process_query] returns for a query that is
    not answerable, so the returned string does not tell these outcomes
    apart. *)
Theorem C10_shared_sentinel :
  (forall requests_post question,
     LLMService.generate_answer requests_post question [] =
     (LLMService.NOT_FOUND, []))
  /\ (forall requests_post question context response fields,
       context <> [] ->
       requests_post (request_for question context) = Ok response ->
       raise_for_status response = Ok tt ->
       json response = Ok (JObject fields) ->
       dict_lookup (u "response") fields = None ->
       LLMService.generate_answer requests_post question context =
       (LLMService.NOT_FOUND, [request_for question context]))
  /\ (forall lower requests_post query_similar threshold query dec,
       RAGSystem.relevance_gate lower threshold (query_similar query)
         (TextProcessor.extract_keywords lower query) = Ok dec ->
       RAGSystem.answerable dec = false ->
       RAGSystem.process_query lower requests_post query_similar threshold
         query = Ok (LLMService.NOT_FOUND, []))
  /\ LLMService.NOT_FOUND = u "Bunu bulamadım.".
Proof.
  repeat match goal with |- _ /\ _ => split end.
  - reflexivity.
  - intros. apply generate_answer_no_field with (response := response)
      (fields := fields); assumption.
  - intros. apply process_query_not_answerable with (dec := dec); assumption.
  - reflexivity.
Qed.

Lemma C10_witness :
  LLMService.generate_answer
    (Examples.replying (JObject [(u "done", JBool true)]))
    (u "elma") [u "elma kırmızıdır"]
  = (LLMService.NOT_FOUND, [request_for (u "elma") [u "elma kırmızıdır"]]).
Proof.
  apply (proj1 (proj2 C10_shared_sentinel)
           (Examples.replying (JObject [(u "done", JBool true)]))
           (u "elma") [u "elma kırmızıdır"]
           {| raise_for_status := Ok tt; Requests.text := [];
              json := Ok (JObject [(u "done", JBool true)]) |}
           [(u "done", JBool true)]).
  - vm_compute; discriminate.
  - reflexivity.
  - reflexivity.
  - reflexivity.
  - vm_compute; reflexivity.
Defined.

(** ** Loading a batch of links *)
Section Loading.

Import RAGSystem.

Variable requests_get : str -> list (str * str) -> result Response.
Variable paragraph_texts : str -> list str.

Lemma fetch_get_raises (url : str) (e : exn) :
  requests_get url fetch_headers = Raise e ->
  ContentFetcher.fetch_from_url requests_get paragraph_texts url = None.
Proof.
  intros H. unfold ContentFetcher.fetch_from_url.
  fold fetch_headers. rewrite H. reflexivity.
Qed.

Lemma fetch_status_raises (url : str) (response : Response) (e : exn) :
  requests_get url fetch_headers = Ok response ->
  raise_for_status response = Raise e ->
  ContentFetcher.fetch_from_url requests_get paragraph_texts url = None.
Proof.
  intros H1 H2. unfold ContentFetcher.fetch_from_url.
  fold fetch_headers. rewrite H1. cbn [bind]. rewrite H2. reflexivity.
Qed.

Lemma fetch_content (url : str) (response : Response) :
  requests_get url fetch_headers = Ok response ->
  raise_for_status response = Ok tt ->
  ContentFetcher.fetch_from_url requests_get paragraph_texts url =
  if truthy (strip (join (u " ") (paragraph_texts (Requests.text response))))
  then Some (join (u " ") (paragraph_texts (Requests.text response)))
  else None.
Proof.
  intros H1 H2. unfold ContentFetcher.fetch_from_url.
  fold fetch_headers. rewrite H1. cbn [bind]. rewrite H2. cbn [bind].
  destruct (truthy (strip _)); reflexivity.
Qed.

Lemma load_step_app (acc : list str) (link : str) :
  load_step requests_get paragraph_texts acc link =
  acc ++ load_content_from_links requests_get paragraph_texts [link].
Proof.
  unfold load_content_from_links. cbn [fold_left]. unfold load_step.
  destruct (ContentFetcher.fetch_from_url requests_get paragraph_texts link)
    as [content|].
  - destruct (truthy content); [reflexivity | symmetry; apply app_nil_r].
  - symmetry; apply app_nil_r.
Qed.

Lemma fold_load_step (links : list str) (acc : list str) :
  fold_left (load_step requests_get paragraph_texts) links acc =
  acc ++ flat_map
           (fun link =>
              load_content_from_links requests_get paragraph_texts [link])
           links.
Proof.
  revert acc. induction links as [|link links IH]; intros acc.
  - symmetry. apply app_nil_r.
  - cbn [fold_left flat_map]. rewrite IH, load_step_app, <- app_assoc.
    reflexivity.
Qed.

Lemma load_flat_map (links : list str) :
  load_content_from_links requests_get paragraph_texts links =
  flat_map
    (fun link => load_content_from_links requests_get paragraph_texts [link])
    links.
Proof. unfold load_content_from_links at 1. apply fold_load_step. Qed.

Lemma load_failed_link (link : str) :
  ContentFetcher.fetch_from_url requests_get paragraph_texts link = None ->
  load_content_from_links requests_get paragraph_texts [link] = [].
Proof.
  intros H. unfold load_content_from_links. cbn [fold_left].
  unfold load_step. rewrite H. reflexivity.
Qed.

Lemma load_skips_failed (before after : list str) (bad : str) :
  ContentFetcher.fetch_from_url requests_get paragraph_texts bad = None ->
  load_content_from_links requests_get paragraph_texts
    (before ++ bad :: after) =
  load_content_from_links requests_get paragraph_texts (before ++ after).
Proof.
  intros H. rewrite !load_flat_map, !flat_map_app. cbn [flat_map].
  rewrite (load_failed_link _ H). reflexivity.
Qed.

End Loading.

(** C9.  When the fetch of one link fails (the request raises, the status
    check of the response raises, or the text extracted from the page is
    blank), [fetch_from_url] returns no content for it, the loader skips
    it, and the sentences loaded from the batch are those of the batch
    without that link: each link contributes the sentences it gives when
    loaded alone, in the order of the links. *)
Theorem C9_fetch_failure_isolated
  (requests_get : str -> list (str * str) -> result Response)
  (paragraph_texts : str -> list str) :
  (forall url e,
     requests_get url fetch_headers = Raise e ->
     ContentFetcher.fetch_from_url requests_get paragraph_texts url = None)
  /\ (forall url response e,
       requests_get url fetch_headers = Ok response ->
       raise_for_status response = Raise e ->
       ContentFetcher.fetch_from_url requests_get paragraph_texts url = None)
  /\ (forall url response,
       requests_get url fetch_headers = Ok response ->
       raise_for_status response = Ok tt ->
       strip (join (u " ") (paragraph_texts (Requests.text response))) = [] ->
       ContentFetcher.fetch_from_url requests_get paragraph_texts url = None)
  /\ (forall links,
       RAGSystem.load_content_from_links requests_get paragraph_texts links =
       flat_map
         (fun link =>
            RAGSystem.load_content_from_links requests_get paragraph_texts
              [link])
         links)
  /\ (forall before bad after,
       ContentFetcher.fetch_from_url requests_get paragraph_texts bad = None ->
       RAGSystem.load_content_from_links requests_get paragraph_texts [bad]
       = []
       /\ RAGSystem.load_content_from_links requests_get paragraph_texts
            (before ++ bad :: after) =
          RAGSystem.load_content_from_links requests_get paragraph_texts
            (before ++ after)).
Proof.
  repeat match goal with |- _ /\ _ => split end.
  - apply fetch_get_raises.
  - apply fetch_status_raises.
  - intros url response H1 H2 H3.
    rewrite (fetch_content _ _ _ H1 H2), H3. reflexivity.
  - apply load_flat_map.
  - intros before bad after H. split.
    + apply load_failed_link, H.
    + apply load_skips_failed, H.
Qed.

Lemma C9_witness :
  RAGSystem.load_content_from_links Examples.site Examples.one_paragraph
    [u "http://kapali"] = []
  /\ RAGSystem.load_content_from_links Examples.site Examples.one_paragraph
       ([u "http://a/Bir. Iki"] ++ u "http://kapali" :: [u "http://b/Son"])
     = RAGSystem.load_content_from_links Examples.site Examples.one_paragraph
         ([u "http://a/Bir. Iki"] ++ [u "http://b/Son"]).
Proof.
  apply (proj2 (proj2 (proj2 (proj2
           (C9_fetch_failure_isolated Examples.site Examples.one_paragraph))))
           [u "http://a/Bir. Iki"] (u "http://kapali") [u "http://b/Son"]).
  vm_compute; reflexivity.
Defined.

(** ** The order of distances *)
Section FloatOrder.

Lemma SFcompare_key (x y : spec_float) :
  SFcompare x y =
  match sf_key x, sf_key y with
  | Some a, Some b => Some (lex3 a b)
  | _, _ => None
  end.
Proof.
  destruct x as [sx|sx| |sx mx ex], y as [sy|sy| |sy my ey];
    try destruct sx; try destruct sy; try reflexivity.
  cbn [SFcompare sf_key lex3]. f_equal.
  change ((-1) ?= (-1))%Z with Eq. cbv iota.
  rewrite Z.compare_opp, (Z.compare_antisym ex ey).
  destruct (ex ?= ey)%Z; reflexivity.
Qed.

(** [lex3] is the comparison of the lexicographic order. *)
Lemma lex3_spec (a1 a2 a3 b1 b2 b3 : Z) :
  match lex3 (a1, a2, a3) (b1, b2, b3) with
  | Lt => (a1 < b1 \/ (a1 = b1 /\ (a2 < b2 \/ (a2 = b2 /\ a3 < b3))))%Z
  | Eq => a1 = b1 /\ a2 = b2 /\ a3 = b3
  | Gt => (b1 < a1 \/ (a1 = b1 /\ (b2 < a2 \/ (a2 = b2 /\ b3 < a3))))%Z
  end.
Proof.
  unfold lex3.
  destruct (Z.compare_spec a1 b1); [|lia|lia].
  destruct (Z.compare_spec a2 b2); [|lia|lia].
  destruct (Z.compare_spec a3 b3); lia.
Qed.

Lemma SFleb_cmp (x y : spec_float) : SFleb x y = cmp_le (SFcompare x y).
Proof. unfold SFleb, cmp_le. destruct (SFcompare x y) as [[| |]|]; reflexivity. Qed.

Lemma SFltb_cmp (x y : spec_float) : SFltb x y = cmp_lt (SFcompare x y).
Proof. unfold SFltb, cmp_lt. destruct (SFcompare x y) as [[| |]|]; reflexivity. Qed.

Ltac order_cases :=
  repeat match goal with
  | k : (Z * Z * Z)%type |- _ => destruct k as [[? ?] ?]
  end;
  repeat match goal with
  | |- context [lex3 (?a1, ?a2, ?a3) (?b1, ?b2, ?b3)] =>
    let H := fresh "Hlex" in
    pose proof (lex3_spec a1 a2 a3 b1 b2 b3) as H;
    destruct (lex3 (a1, a2, a3) (b1, b2, b3))
  | H0 : context [lex3 (?a1, ?a2, ?a3) (?b1, ?b2, ?b3)] |- _ =>
    let H := fresh "Hlex" in
    pose proof (lex3_spec a1 a2 a3 b1 b2 b3) as H;
    destruct (lex3 (a1, a2, a3) (b1, b2, b3))
  end;
  simpl in *; try discriminate; try reflexivity; try (exfalso; lia).

Lemma SFleb_trans (x y z : spec_float) :
  SFleb x y = true -> SFleb y z = true -> SFleb x z = true.
Proof.
  rewrite !SFleb_cmp, !SFcompare_key.
  destruct (sf_key x) as [a|], (sf_key y) as [b|], (sf_key z) as [c|];
    try discriminate.
  order_cases.
Qed.

Lemma SFltb_leb_not_leb (t x y : spec_float) :
  SFltb t x = true -> SFleb x y = true -> SFleb y t = false.
Proof.
  rewrite !SFleb_cmp, SFltb_cmp, !SFcompare_key.
  destruct (sf_key x) as [a|], (sf_key y) as [b|], (sf_key t) as [c|];
    try discriminate.
  order_cases.
Qed.

Lemma leb_trans (a b c : float) :
  (a <=? b)%float = true -> (b <=? c)%float = true ->
  (a <=? c)%float = true.
Proof. rewrite !leb_spec. apply SFleb_trans. Qed.

Lemma ltb_leb_not_leb (t a b : float) :
  (t <? a)%float = true -> (a <=? b)%float = true ->
  (b <=? t)%float = false.
Proof. rewrite ltb_spec, !leb_spec. apply SFltb_leb_not_leb. Qed.

(** In an ascending list the first distance is below all the others. *)
Lemma ascending_head (d0 : float) (rest : list float) :
  ascending (d0 :: rest) ->
  Forall (fun d => (d0 <=? d)%float = true) rest.
Proof.
  unfold ascending. revert d0.
  induction rest as [|d rest IH]; intros d0 H; [constructor|].
  apply Sorted_inv in H. destruct H as [Hs Hr].
  apply HdRel_inv in Hr.
  constructor; [exact Hr|].
  eapply Forall_impl; [|apply (IH d Hs)].
  intros x Hx. simpl in Hx. eapply leb_trans; eassumption.
Qed.

End FloatOrder.

(** ** Subsequences *)
Section SubseqFacts.

Variable A B : Type.

Lemma subseq_refl (l : list A) : subseq l l.
Proof. induction l; constructor; assumption. Qed.

Lemma subseq_length (l1 l2 : list A) :
  subseq l1 l2 -> (List.length l1 <= List.length l2)%nat.
Proof. induction 1; simpl; lia. Qed.

Lemma subseq_filter_impl (p q : A -> bool) (l : list A) :
  (forall x, In x l -> p x = true -> q x = true) ->
  subseq (filter p l) (filter q l).
Proof.
  induction l as [|x l IH]; intros H; simpl; [constructor|].
  assert (IH' : subseq (filter p l) (filter q l)).
  { apply IH. intros y Hy. apply H. right. exact Hy. }
  destruct (p x) eqn:Ep.
  - rewrite (H x (or_introl eq_refl) Ep). apply subseq_keep. exact IH'.
  - destruct (q x); [apply subseq_skip|]; exact IH'.
Qed.

Lemma subseq_filter (p : A -> bool) (l : list A) : subseq (filter p l) l.
Proof.
  induction l as [|x l IH]; simpl; [constructor|].
  destruct (p x); constructor; exact IH.
Qed.

Lemma subseq_map (f : A -> B) (l1 l2 : list A) :
  subseq l1 l2 -> subseq (map f l1) (map f l2).
Proof. induction 1; simpl; constructor; assumption. Qed.

Lemma subseq_trans (l1 l2 l3 : list A) :
  subseq l1 l2 -> subseq l2 l3 -> subseq l1 l3.
Proof.
  intros H12 H23. revert l1 H12.
  induction H23 as [|x l2 l3 H IH|x l2 l3 H IH]; intros l1 H12.
  - exact H12.
  - apply subseq_skip. apply IH. exact H12.
  - inversion H12; subst.
    + apply subseq_skip. apply IH. assumption.
    + apply subseq_keep. apply IH. assumption.
Qed.

Lemma subseq_nil_l (l : list A) : subseq [] l.
Proof. induction l; [apply subseq_nil | apply subseq_skip; assumption]. Qed.

Lemma subseq_combine_fst (l : list A) (m : list B) :
  subseq (map fst (combine l m)) l.
Proof.
  revert m. induction l as [|x l IH]; intros m; simpl; [constructor|].
  destruct m as [|y m]; simpl.
  - apply subseq_nil_l.
  - apply subseq_keep. apply IH.
Qed.

End SubseqFacts.

(** ** More on the relevance gate *)
Section GateMore.

Import RAGSystem.

Variable lower : str -> str.

Lemma filter_relevant_subseq (threshold : float) (ss : list str)
  (ds : list float) (kws : list str) :
  subseq (filter_relevant lower threshold ss ds kws) ss.
Proof.
  rewrite filter_relevant_eq.
  eapply subseq_trans; [|apply subseq_combine_fst].
  apply subseq_map, subseq_filter.
Qed.

(** X2.  Admission is monotone: with more keywords and a threshold at least
    as high, every sentence admitted before is still admitted, in the same
    order. *)
Theorem X2_admission_monotone (t1 t2 : float) (ss : list str) (ds : list float)
  (kws1 kws2 : list str) :
  incl kws1 kws2 -> (t1 <=? t2)%float = true ->
  subseq (filter_relevant lower t1 ss ds kws1)
         (filter_relevant lower t2 ss ds kws2).
Proof.
  intros Hk Ht. rewrite !filter_relevant_eq.
  apply subseq_map, subseq_filter_impl.
  intros [s d] _. unfold admission_test. simpl.
  rewrite !andb_true_iff. intros [Hr Hd]. split.
  - unfold TextProcessor.is_sentence_relevant in *.
    apply existsb_exists in Hr. destruct Hr as [k [Hin Hc]].
    apply existsb_exists. exists k. split; [apply Hk, Hin | exact Hc].
  - eapply leb_trans; eassumption.
Qed.

Lemma filter_relevant_above (threshold : float) (ss : list str)
  (ds : list float) (kws : list str) :
  Forall (fun d => (d <=? threshold)%float = false) ds ->
  filter_relevant lower threshold ss ds kws = [].
Proof.
  intros H. rewrite filter_relevant_eq.
  revert ss. induction H as [|d ds Hd _ IH]; intros [|s ss]; try reflexivity.
  simpl. unfold admission_test at 1. simpl. rewrite Hd, andb_false_r.
  apply IH.
Qed.

Lemma ascending_all_above (threshold d0 : float) (rest : list float) :
  ascending (d0 :: rest) -> (threshold <? d0)%float = true ->
  Forall (fun d => (d <=? threshold)%float = false) (d0 :: rest).
Proof.
  intros Hs Ht. constructor.
  - destruct (d0 <=? threshold)%float eqn:E; [|reflexivity].
    rewrite ltb_spec in Ht. rewrite leb_spec in E.
    rewrite SFltb_cmp in Ht. rewrite SFleb_cmp in E.
    rewrite SFcompare_key in Ht, E.
    destruct (sf_key (Prim2SF threshold)) as [[[a1 a2] a3]|],
             (sf_key (Prim2SF d0)) as [[[b1 b2] b3]|]; try discriminate.
    pose proof (lex3_spec a1 a2 a3 b1 b2 b3) as H1.
    pose proof (lex3_spec b1 b2 b3 a1 a2 a3) as H2.
    destruct (lex3 (a1, a2, a3) (b1, b2, b3)); try discriminate.
    destruct (lex3 (b1, b2, b3) (a1, a2, a3)); try discriminate;
      exfalso; lia.
  - eapply Forall_impl; [|apply (ascending_head Hs)].
    intros d Hd. simpl in Hd. eapply ltb_leb_not_leb; eassumption.
Qed.

End GateMore.

(** X1.  The admitted sentences are a subsequence of the candidate
    sentences, there are no more of them than there are paired candidates,
    and each one was paired with a distance at most the threshold and is
    relevant to the keywords. *)
Theorem X1_admitted_subsequence (lower : str -> str) (threshold : float)
  (ss : list str) (ds : list float) (kws : list str) :
  subseq (RAGSystem.filter_relevant lower threshold ss ds kws) ss
  /\ (List.length (RAGSystem.filter_relevant lower threshold ss ds kws)
      <= Nat.min (List.length ss) (List.length ds))%nat
  /\ Forall
       (fun s =>
          exists d, In (s, d) (combine ss ds)
                    /\ (d <=? threshold)%float = true
                    /\ TextProcessor.is_sentence_relevant lower s kws = true)
       (RAGSystem.filter_relevant lower threshold ss ds kws).
Proof.
  split; [apply filter_relevant_subseq|]. split.
  - rewrite filter_relevant_eq, length_map, <- length_combine.
    apply subseq_length, subseq_filter.
  - rewrite filter_relevant_eq. apply Forall_forall. intros s Hs.
    apply in_map_iff in Hs. destruct Hs as [[s' d] [Hfst Hin]].
    simpl in Hfst. subst s'. apply filter_In in Hin. destruct Hin as [Hin Ht].
    unfold admission_test in Ht. simpl in Ht.
    apply andb_true_iff in Ht. destruct Ht as [Hr Hd].
    exists d. repeat split; assumption.
Qed.

Lemma X2_witness :
  subseq
    (RAGSystem.filter_relevant Examples.ascii_lower 0.5%float
       [u "elma kırmızıdır"; u "araba hızlıdır"] [0.2; 0.9]%float
       [u "elma"])
    (RAGSystem.filter_relevant Examples.ascii_lower 1%float
       [u "elma kırmızıdır"; u "araba hızlıdır"] [0.2; 0.9]%float
       [u "elma"; u "araba"]).
Proof.
  apply (@X2_admission_monotone Examples.ascii_lower 0.5%float 1%float).
  - intros k Hk. left. destruct Hk as [<- | []]. reflexivity.
  - vm_compute; reflexivity.
Defined.

(** X3.  When the distances come in ascending order, the second half of
    the "not found" test never decides: if the first distance is above the
    threshold then no candidate is admitted.  So [process_query] sends a
    request to the synthesizer exactly when some candidate is admitted. *)
Theorem X3_veto_redundant_when_sorted (lower : str -> str)
  (requests_post : PostRequest -> result Response)
  (query_similar : str -> Chroma.QueryResult) (threshold : float)
  (query : str) :
  ascending (first_row (Chroma.distances (query_similar query))) ->
  let distances := first_row (Chroma.distances (query_similar query)) in
  let relevant :=
    RAGSystem.filter_relevant lower threshold
      (map Chroma.text (first_row (Chroma.metadatas (query_similar query))))
      distances (TextProcessor.extract_keywords lower query) in
  (vetoed_at threshold relevant distances <-> relevant = [])
  /\ exists answer requests,
       RAGSystem.process_query lower requests_post query_similar threshold
         query = Ok (answer, requests)
       /\ (requests = [] <-> relevant = []).
Proof.
  intros Hasc distances relevant.
  assert (Hv : vetoed_at threshold relevant distances <-> relevant = []).
  { split; [|intros H; left; exact H].
    intros [H | (d0 & rest & Hd & Ht)]; [exact H|].
    unfold relevant. fold distances in Hasc. rewrite Hd in *.
    apply filter_relevant_above, ascending_all_above; assumption. }
  split; [exact Hv|].
  destruct (process_query_spec lower requests_post query_similar threshold
              query) as (answer & requests & Hq & Hyes & Hno).
  fold distances in Hyes, Hno. fold relevant in Hyes, Hno.
  exists answer, requests. split; [exact Hq|]. split.
  - intros Hr. destruct relevant as [|r rel] eqn:E; [reflexivity|].
    exfalso.
    assert (Hn : ~ vetoed_at threshold (r :: rel) distances).
    { intros H. apply Hv in H. discriminate H. }
    destruct (Hno Hn) as [_ Hreq]. rewrite Hr in Hreq. discriminate Hreq.
  - intros Hr. apply Hyes. left. exact Hr.
Qed.

Lemma X3_witness :
  let distances := first_row (Chroma.distances Examples.elma_results) in
  let relevant :=
    RAGSystem.filter_relevant Examples.ascii_lower 0.1%float
      (map Chroma.text (first_row (Chroma.metadatas Examples.elma_results)))
      distances (TextProcessor.extract_keywords Examples.ascii_lower (u "elma"))
  in
  (vetoed_at 0.1%float relevant distances <-> relevant = [])
  /\ exists answer requests,
       RAGSystem.process_query Examples.ascii_lower
         (Examples.failing ReadTimeout) (fun _ => Examples.elma_results)
         0.1%float (u "elma") = Ok (answer, requests)
       /\ (requests = [] <-> relevant = []).
Proof.
  apply (@X3_veto_redundant_when_sorted Examples.ascii_lower
           (Examples.failing ReadTimeout) (fun _ => Examples.elma_results)
           0.1%float (u "elma")).
  repeat constructor.
Defined.

(** ** More on text processing *)
Section TextMore.

Import TextProcessor.

Lemma occurs_in_refl (s : str) : occurs_in s s.
Proof. exists [], []. rewrite app_nil_r. reflexivity. Qed.

Lemma occurs_in_trans (a b c : str) :
  occurs_in a b -> occurs_in b c -> occurs_in a c.
Proof.
  intros (p1 & q1 & ->) (p2 & q2 & ->).
  exists (p2 ++ p1), (q1 ++ q2). rewrite <- !app_assoc. reflexivity.
Qed.

Lemma occurs_in_cons (c : char) (a s : str) :
  occurs_in a s -> occurs_in a (c :: s).
Proof. intros (p & q & ->). exists (c :: p), q. reflexivity. Qed.

Lemma occurs_in_join (sep : str) (parts : list str) (f : str) :
  In f parts -> occurs_in f (join sep parts).
Proof.
  induction parts as [|p rest IH]; intros H; [destruct H|].
  destruct rest as [|q rest].
  - destruct H as [<- | []]. apply occurs_in_refl.
  - rewrite join_cons by discriminate.
    destruct H as [<- | H].
    + exists [], (sep ++ join sep (q :: rest)). reflexivity.
    + destruct (IH H) as (a & b & E).
      exists (p ++ sep ++ a), b. rewrite E, <- !app_assoc. reflexivity.
Qed.

Lemma occurs_in_strip (f : str) : occurs_in (strip f) f.
Proof.
  destruct (strip_spec f) as (l & r & E & _). exists l, r. exact E.
Qed.

Lemma occurs_in_all (p : char -> bool) (a s : str) :
  occurs_in a s -> forallb p s = true -> forallb p a = true.
Proof.
  intros (x & y & ->) H. rewrite !forallb_app in H.
  apply andb_true_iff in H. destruct H as [_ H].
  apply andb_true_iff in H. apply (proj1 H).
Qed.

(** X4.  Every sentence that [split_into_sentences] returns occurs in the
    text as a contiguous piece: nothing is invented or glued together. *)
Theorem X4_sentences_occur_in_text (text : str) :
  Forall (fun s => occurs_in s text) (split_into_sentences text).
Proof.
  rewrite split_into_sentences_eq. apply Forall_forall. intros s Hs.
  apply in_map_iff in Hs. destruct Hs as (f & <- & Hf).
  apply filter_In in Hf. destruct Hf as [Hf _].
  apply occurs_in_trans with (b := f); [apply occurs_in_strip|].
  pose proof (occurs_in_join marker (split_marker text) f Hf) as Ho.
  rewrite join_split_marker in Ho. exact Ho.
Qed.

Lemma lstrip_blank (s : str) : forallb isspace s = true -> lstrip s = [].
Proof.
  induction s as [|c s IH]; [reflexivity|]. simpl.
  intros H. apply andb_true_iff in H. destruct H as [Hc Hs].
  rewrite Hc. apply IH, Hs.
Qed.

Lemma strip_blank (s : str) : forallb isspace s = true -> strip s = [].
Proof.
  intros H. unfold strip, rstrip.
  rewrite (lstrip_blank (rev s)); [reflexivity|].
  apply forallb_forall. intros x Hx. rewrite forallb_forall in H.
  apply H, in_rev. exact Hx.
Qed.

Lemma strip_nonblank (s : str) : strip s = [] -> forallb isspace s = true.
Proof.
  intros H. destruct (strip_spec s) as (l & r & E & Hl & Hr & _).
  rewrite H in E. simpl in E. rewrite E, forallb_app, Hl, Hr. reflexivity.
Qed.

(** X5.  A text made of whitespace only gives no sentence. *)
Theorem X5_blank_text_no_sentence (text : str) :
  forallb isspace text = true -> split_into_sentences text = [].
Proof.
  intros H. rewrite split_into_sentences_eq.
  assert (Hall : Forall (fun f => strip f = []) (split_marker text)).
  { apply Forall_forall. intros f Hf. apply strip_blank.
    apply occurs_in_all with (s := text); [|exact H].
    pose proof (occurs_in_join marker (split_marker text) f Hf) as Ho.
    rewrite join_split_marker in Ho. exact Ho. }
  induction Hall as [|f fs Hf _ IH]; [reflexivity|].
  simpl. rewrite Hf. exact IH.
Qed.

(** The words of a text occur in it; the first word of a text that begins
    with no whitespace is a prefix of it. *)
Lemma split_ws_occur (s : str) :
  Forall (fun w => occurs_in w s) (split_ws s)
  /\ (begins_clean s = true ->
      forall f r, split_ws s = f :: r -> exists post, s = f ++ post).
Proof.
  induction s as [|c s [IHo IHp]].
  - split; [constructor | intros _ f r H; discriminate H].
  - destruct s as [|d s].
    + simpl. destruct (isspace c) eqn:Ec.
      * split; [constructor | discriminate].
      * split.
        -- constructor; [apply occurs_in_refl | constructor].
        -- intros _ f r H. injection H as <- _. exists []. reflexivity.
    + rewrite split_ws_cons2.
      assert (Hrest : Forall (fun w => occurs_in w (c :: d :: s))
                        (split_ws (d :: s))).
      { eapply Forall_impl; [|exact IHo].
        intros w Hw. apply occurs_in_cons, Hw. }
      destruct (isspace c) eqn:Ec.
      * split; [exact Hrest|]. simpl. rewrite Ec. discriminate.
      * destruct (isspace d) eqn:Ed.
        -- split.
           ++ constructor; [|exact Hrest]. exists [], (d :: s). reflexivity.
           ++ intros _ f r H. injection H as <- _. exists (d :: s). reflexivity.
        -- assert (Hb : begins_clean (d :: s) = true) by (simpl; rewrite Ed; reflexivity).
           destruct (split_ws (d :: s)) as [|f r] eqn:E.
           ++ exfalso. exact (@split_ws_nonempty d s Ed E).
           ++ destruct (IHp Hb f r eq_refl) as [post Hpost].
              simpl. split.
              ** constructor.
                 --- exists [], post. simpl. rewrite Hpost. reflexivity.
                 --- inversion Hrest; assumption.
              ** intros _ f' r' H. injection H as <- _.
                 exists post. simpl. rewrite Hpost. reflexivity.
Qed.

Lemma split_ws_join (ws : list str) :
  Forall is_word ws -> split_ws (join (u " ") ws) = ws.
Proof.
  induction 1 as [|w ws Hw Hws IH]; [reflexivity|].
  destruct ws as [|w' ws].
  - apply split_ws_word, Hw.
  - rewrite join_cons by discriminate.
    change (u " " ++ join (u " ") (w' :: ws))
      with (space :: join (u " ") (w' :: ws)).
    rewrite split_ws_app by reflexivity.
    rewrite (split_ws_word Hw), IH. reflexivity.
Qed.

Lemma filter_idempotent (A : Type) (p : A -> bool) (l : list A) :
  filter p (filter p l) = filter p l.
Proof.
  induction l as [|x l IH]; [reflexivity|]. simpl.
  destruct (p x) eqn:E; simpl; rewrite ?E, IH; reflexivity.
Qed.

Variable lower : str -> str.

Lemma keywords_are_words (query : str) :
  Forall (fun k => is_word k
                   /\ ~ In k Config.STOPWORDS
                   /\ occurs_in k (lower query))
    (extract_keywords lower query).
Proof.
  apply Forall_forall. intros k Hk. unfold extract_keywords in Hk.
  apply filter_In in Hk. destruct Hk as [Hin Hstop].
  pose proof (split_ws_words (lower query)) as Hw.
  pose proof (proj1 (split_ws_occur (lower query))) as Ho.
  rewrite Forall_forall in Hw, Ho.
  repeat split.
  - apply (Hw k Hin).
  - apply (Hw k Hin).
  - intros H. apply is_stopword_spec in H. rewrite H in Hstop. discriminate.
  - apply (Ho k Hin).
Qed.

(** X8.  A sentence is relevant to the keywords extracted from itself
    exactly when there are any: a sentence used as its own query passes the
    keyword test unless it holds nothing but stop words and whitespace. *)
Theorem X8_self_relevance (sentence : str) :
  is_sentence_relevant lower sentence (extract_keywords lower sentence)
  = truthy (extract_keywords lower sentence).
Proof.
  pose proof (keywords_are_words sentence) as H.
  destruct (extract_keywords lower sentence) as [|k ks]; [reflexivity|].
  inversion H as [|? ? (_ & _ & Ho) _]; subst.
  unfold is_sentence_relevant. simpl.
  apply contains_spec in Ho. rewrite Ho. reflexivity.
Qed.

End TextMore.

Lemma X5_witness :
  TextProcessor.split_into_sentences [32; 10; 9; 160; 32]%N = [].
Proof.
  apply (@X5_blank_text_no_sentence [32; 10; 9; 160; 32]%N).
  reflexivity.
Defined.

(** X6.  Every keyword that [extract_keywords] returns is a non-empty word
    without whitespace, is not a stop word, and occurs in the lower-cased
    query; in particular no keyword is the empty string, which would occur
    in every sentence. *)
Theorem X6_keywords_are_words (lower : str -> str) (query : str) :
  Forall (fun k => is_word k
                   /\ ~ In k Config.STOPWORDS
                   /\ occurs_in k (lower query))
    (TextProcessor.extract_keywords lower query).
Proof. apply keywords_are_words. Qed.

(** X7.  Keywords survive a round trip: joined by single spaces and
    extracted again they come back unchanged, provided lower-casing leaves
    the joined keywords as they are. *)
Theorem X7_keywords_round_trip (lower : str -> str) (query : str) :
  lower (join (u " ") (TextProcessor.extract_keywords lower query))
  = join (u " ") (TextProcessor.extract_keywords lower query) ->
  TextProcessor.extract_keywords lower
    (join (u " ") (TextProcessor.extract_keywords lower query))
  = TextProcessor.extract_keywords lower query.
Proof.
  intros H. unfold TextProcessor.extract_keywords at 1. rewrite H.
  rewrite split_ws_join.
  - unfold TextProcessor.extract_keywords. apply filter_idempotent.
  - eapply Forall_impl; [|apply keywords_are_words].
    intros k (Hk & _). exact Hk.
Qed.

Lemma X7_witness :
  TextProcessor.extract_keywords Examples.ascii_lower
    (join (u " ")
       (TextProcessor.extract_keywords Examples.ascii_lower
          (u "Fransa'nın  başkenti NEDIR bu")))
  = TextProcessor.extract_keywords Examples.ascii_lower
      (u "Fransa'nın  başkenti NEDIR bu").
Proof.
  apply (@X7_keywords_round_trip Examples.ascii_lower
           (u "Fransa'nın  başkenti NEDIR bu")).
  vm_compute; reflexivity.
Defined.

(** ** More on the synthesizer, the fetcher and the loader *)
Section ServiceMore.

Variable requests_post : PostRequest -> result Response.

Lemma attempt_stripped (request : PostRequest) (answer : str) :
  LLMService.attempt requests_post request = Ok answer ->
  strip answer = answer.
Proof.
  unfold LLMService.attempt.
  destruct (requests_post request) as [response|e]; [|discriminate].
  cbn [bind].
  destruct (raise_for_status response) as [[]|e]; [|discriminate].
  cbn [bind].
  destruct (json response) as [document|e]; [|discriminate].
  cbn [bind].
  destruct document as [ | | | | |fields]; try discriminate.
  cbn [get].
  destruct (dict_lookup (u "response") fields) as [v|]; cbn [bind].
  - destruct v; try discriminate. cbn [strip_method].
    intros H. injection H as <-. apply strip_idempotent.
  - cbn [strip_method]. intros H. injection H as <-. apply strip_idempotent.
Qed.

Lemma generate_answer_stripped (question : str) (context : list str) :
  strip (fst (LLMService.generate_answer requests_post question context))
  = fst (LLMService.generate_answer requests_post question context).
Proof.
  destruct context as [|c context].
  - vm_compute. reflexivity.
  - rewrite generate_answer_attempt by discriminate. cbn [fst].
    destruct (LLMService.attempt requests_post _) as [answer|e] eqn:E.
    + apply (attempt_stripped _ E).
    + unfold fallback_for.
      destruct (isinstance_ConnectionError e); vm_compute; reflexivity.
Qed.

End ServiceMore.

(** X9.  Every answer is trimmed: whatever the synthesizer does, the string
    that [generate_answer] returns, and so the string that [process_query]
    returns, has no whitespace at either end (it may be empty). *)
Theorem X9_answers_are_trimmed :
  (forall requests_post question context,
     strip (fst (LLMService.generate_answer requests_post question context))
     = fst (LLMService.generate_answer requests_post question context))
  /\ (forall lower requests_post query_similar threshold query,
       exists answer requests,
         RAGSystem.process_query lower requests_post query_similar threshold
           query = Ok (answer, requests)
         /\ strip answer = answer
         /\ begins_clean answer = true /\ ends_clean answer = true).
Proof.
  split; [apply generate_answer_stripped|].
  intros lower requests_post query_similar threshold query.
  destruct (process_query_spec lower requests_post query_similar threshold
              query) as (answer & requests & Hq & Hyes & Hno).
  exists answer, requests. split; [exact Hq|].
  assert (Hs : strip answer = answer).
  { match type of Hyes with
    | ?V -> _ =>
      assert (Hdec : V \/ ~ V)
    end.
    { unfold vetoed_at.
      match goal with
      | |- (?r = [] \/ _) \/ _ => destruct r as [|x r'] eqn:Er
      end; [left; left; reflexivity|].
      destruct (first_row (Chroma.distances (query_similar query)))
        as [|d0 rest] eqn:Ed.
      - right. intros [H | (d & l & H & _)]; discriminate H.
      - destruct (threshold <? d0)%float eqn:Et.
        + left. right. exists d0, rest. split; [reflexivity | exact Et].
        + right. intros [H | (d & l & H & Hd)]; [discriminate H|].
          injection H as <- _. congruence. }
    destruct Hdec as [Hv | Hnv].
    - destruct (Hyes Hv) as [-> _]. vm_compute. reflexivity.
    - destruct (Hno Hnv) as [Hg _].
      change answer with (fst (answer, requests)). rewrite Hg.
      apply generate_answer_stripped. }
  split; [exact Hs|]. rewrite <- Hs. apply strip_clean.
Qed.

Section LoadMore.

Import RAGSystem.

Variable requests_get : str -> list (str * str) -> result Response.
Variable paragraph_texts : str -> list str.

Lemma fetch_some (url : str) (content : str) :
  ContentFetcher.fetch_from_url requests_get paragraph_texts url
  = Some content <->
  exists response,
    requests_get url fetch_headers = Ok response
    /\ raise_for_status response = Ok tt
    /\ content = join (u " ") (paragraph_texts (Requests.text response))
    /\ strip content <> [].
Proof.
  split.
  - destruct (requests_get url fetch_headers) as [response|e] eqn:Hg.
    + destruct (raise_for_status response) as [[]|e] eqn:Hs.
      * rewrite (fetch_content _ _ _ Hg Hs).
        destruct (truthy (strip _)) eqn:Ht; [|discriminate].
        intros H. injection H as <-.
        exists response. repeat split; try assumption.
        apply truthy_nonempty, Ht.
      * rewrite (fetch_status_raises _ _ _ Hg Hs). discriminate.
    + rewrite (fetch_get_raises _ _ _ Hg). discriminate.
  - intros (response & Hg & Hs & -> & Hne).
    rewrite (fetch_content _ _ _ Hg Hs).
    apply truthy_nonempty in Hne. rewrite Hne. reflexivity.
Qed.

Lemma fetch_not_blank (url : str) (content : str) :
  ContentFetcher.fetch_from_url requests_get paragraph_texts url
  = Some content ->
  truthy content = true.
Proof.
  intros H. apply fetch_some in H. destruct H as (_ & _ & _ & _ & Hne).
  destruct content; [|reflexivity]. exfalso. apply Hne. reflexivity.
Qed.

Lemma load_single (link : str) :
  load_content_from_links requests_get paragraph_texts [link] =
  match ContentFetcher.fetch_from_url requests_get paragraph_texts link with
  | Some content => TextProcessor.split_into_sentences content
  | None => []
  end.
Proof.
  unfold load_content_from_links. cbn [fold_left]. unfold load_step.
  destruct (ContentFetcher.fetch_from_url requests_get paragraph_texts link)
    as [content|] eqn:E; [|reflexivity].
  rewrite (fetch_not_blank _ E). reflexivity.
Qed.

Lemma load_in (links : list str) (s : str) :
  In s (load_content_from_links requests_get paragraph_texts links) <->
  exists link content,
    In link links
    /\ ContentFetcher.fetch_from_url requests_get paragraph_texts link
       = Some content
    /\ In s (TextProcessor.split_into_sentences content).
Proof.
  rewrite load_flat_map, in_flat_map. split.
  - intros (link & Hl & Hs). rewrite load_single in Hs.
    destruct (ContentFetcher.fetch_from_url requests_get paragraph_texts link)
      as [content|] eqn:E; [|destruct Hs].
    exists link, content. repeat split; assumption.
  - intros (link & content & Hl & Hf & Hs).
    exists link. split; [exact Hl|]. rewrite load_single, Hf. exact Hs.
Qed.

Lemma load_all_fail (links : list str) :
  (forall link, In link links ->
     ContentFetcher.fetch_from_url requests_get paragraph_texts link = None) ->
  load_content_from_links requests_get paragraph_texts links = [].
Proof.
  intros H.
  destruct (load_content_from_links requests_get paragraph_texts links)
    as [|s l] eqn:E; [reflexivity|].
  assert (Hin : In s (load_content_from_links requests_get paragraph_texts
                        links)) by (rewrite E; left; reflexivity).
  apply load_in in Hin. destruct Hin as (link & content & Hl & Hf & _).
  rewrite (H link Hl) in Hf. discriminate Hf.
Qed.

End LoadMore.

(** X10.  [fetch_from_url] returns content exactly when the request and
    the status check succeed and the text of the paragraphs, joined by
    single spaces, is not blank; the content is that joined text, untrimmed.
    It never returns an empty string. *)
Theorem X10_fetch_success
  (requests_get : str -> list (str * str) -> result Response)
  (paragraph_texts : str -> list str) (url : str) (content : str) :
  (ContentFetcher.fetch_from_url requests_get paragraph_texts url
   = Some content <->
   exists response,
     requests_get url fetch_headers = Ok response
     /\ raise_for_status response = Ok tt
     /\ content = join (u " ") (paragraph_texts (Requests.text response))
     /\ strip content <> [])
  /\ ContentFetcher.fetch_from_url requests_get paragraph_texts url
     <> Some [].
Proof.
  split; [apply fetch_some|].
  intros H. apply fetch_not_blank in H. discriminate H.
Qed.

(** X11.  The sentences that [load_content_from_links] returns are exactly
    the sentences of the contents fetched from the links; each is a
    segmented sentence (not empty, trimmed, without the separator); and
    loading two batches one after the other gives the sentences of the
    first followed by those of the second. *)
Theorem X11_loaded_sentences
  (requests_get : str -> list (str * str) -> result Response)
  (paragraph_texts : str -> list str) :
  (forall links s,
     In s (RAGSystem.load_content_from_links requests_get paragraph_texts
             links) <->
     exists link content,
       In link links
       /\ ContentFetcher.fetch_from_url requests_get paragraph_texts link
          = Some content
       /\ In s (TextProcessor.split_into_sentences content))
  /\ (forall links,
       Forall is_sentence
         (RAGSystem.load_content_from_links requests_get paragraph_texts
            links))
  /\ (forall first second,
       RAGSystem.load_content_from_links requests_get paragraph_texts
         (first ++ second)
       = RAGSystem.load_content_from_links requests_get paragraph_texts first
         ++ RAGSystem.load_content_from_links requests_get paragraph_texts
              second).
Proof.
  split; [apply load_in|]. split.
  - intros links. apply Forall_forall. intros s Hs.
    apply load_in in Hs. destruct Hs as (link & content & _ & _ & Hs).
    pose proof (split_into_sentences_sentences content) as H.
    rewrite Forall_forall in H. apply H, Hs.
  - intros first second. rewrite !load_flat_map. apply flat_map_app.
Qed.

(** ** Entering the links *)
Section Links.

Variable lower : str -> str.

Lemma links_loop_done (pre : list str) (line : str) (rest acc : list str) :
  Forall (fun l => is_done lower l = false) pre ->
  is_done lower line = true ->
  exists out,
    Main.links_loop lower (pre ++ line :: rest) acc =
    (Ok (acc ++ filter (fun l => startswith l (u "http")) pre), out, rest)
    /\ rejections out =
       List.length (filter (fun l => negb (startswith l (u "http"))) pre).
Proof.
  unfold is_done. intros Hpre Hline. revert acc.
  induction Hpre as [|l pre Hl _ IH]; intros acc.
  - simpl. rewrite Hline. eexists. split.
    + rewrite app_nil_r. reflexivity.
    + reflexivity.
  - cbn [app Main.links_loop filter]. rewrite Hl.
    destruct (startswith l (u "http")) eqn:Eh; cbn [negb].
    + destruct (IH (acc ++ [l])) as (out & Hloop & Hrej).
      rewrite Hloop. eexists. split.
      * rewrite <- app_assoc. reflexivity.
      * exact Hrej.
    + destruct (IH acc) as (out & Hloop & Hrej).
      rewrite Hloop. eexists. split; [reflexivity|].
      cbn [List.length]. rewrite <- Hrej. reflexivity.
Qed.

Lemma links_loop_eof (inputs acc : list str) :
  Forall (fun l => is_done lower l = false) inputs ->
  exists out, Main.links_loop lower inputs acc = (Raise EOFError, out, []).
Proof.
  unfold is_done. intros H. revert acc.
  induction H as [|l inputs Hl _ IH]; intros acc.
  - eexists. reflexivity.
  - cbn [Main.links_loop]. rewrite Hl.
    destruct (startswith l (u "http")).
    + destruct (IH (acc ++ [l])) as (out & ->). eexists. reflexivity.
    + destruct (IH acc) as (out & ->). eexists. reflexivity.
Qed.

Lemma get_links_done (pre : list str) (line : str) (rest : list str) :
  Forall (fun l => is_done lower l = false) pre ->
  is_done lower line = true ->
  exists out,
    Main.get_links_from_user lower (pre ++ line :: rest) =
    (Ok (filter (fun l => startswith l (u "http")) pre), out, rest)
    /\ rejections out =
       List.length (filter (fun l => negb (startswith l (u "http"))) pre).
Proof.
  intros Hpre Hline.
  destruct (@links_loop_done pre line rest [] Hpre Hline)
    as (out & Hloop & Hrej).
  unfold Main.get_links_from_user. rewrite Hloop.
  eexists. split; [reflexivity|]. exact Hrej.
Qed.

End Links.

(** X12.  [get_links_from_user] returns the lines typed before the first
    line that lower-cases to [bitti] and that start with [http], in the
    order typed; it prints one rejection message for each of the other
    lines before it, and leaves the lines after it unread. *)
Theorem X12_links_entered (lower : str -> str) (pre : list str)
  (line : str) (rest : list str) :
  Forall (fun l => is_done lower l = false) pre ->
  is_done lower line = true ->
  exists out,
    Main.get_links_from_user lower (pre ++ line :: rest) =
    (Ok (filter (fun l => startswith l (u "http")) pre), out, rest)
    /\ rejections out =
       List.length (filter (fun l => negb (startswith l (u "http"))) pre).
Proof. intros Hpre Hline. apply get_links_done; assumption. Qed.

Lemma X12_witness :
  exists out,
    Main.get_links_from_user Examples.ascii_lower
      ([u "http://a"; u "ftp://b"; u "https://c"] ++ u "BITTI" :: [u "elma"])
    = (Ok (filter (fun l => startswith l (u "http"))
             [u "http://a"; u "ftp://b"; u "https://c"]), out, [u "elma"])
    /\ rejections out =
       List.length
         (filter (fun l => negb (startswith l (u "http")))
            [u "http://a"; u "ftp://b"; u "https://c"]).
Proof.
  apply (@X12_links_entered Examples.ascii_lower
           [u "http://a"; u "ftp://b"; u "https://c"] (u "BITTI")
           [u "elma"]).
  - repeat constructor.
  - vm_compute; reflexivity.
Defined.

(** X13.  When the input ends before a line that lower-cases to [bitti],
    [get_links_from_user] returns no list: the [input] call raises
    [EOFError], whatever links were typed. *)
Theorem X13_links_end_of_input (lower : str -> str) (inputs : list str) :
  Forall (fun l => is_done lower l = false) inputs ->
  exists out,
    Main.get_links_from_user lower inputs = (Raise EOFError, out, []).
Proof.
  intros H. destruct (@links_loop_eof lower inputs [] H) as (out & Hloop).
  unfold Main.get_links_from_user. rewrite Hloop. eexists. reflexivity.
Qed.

Lemma X13_witness :
  exists out,
    Main.get_links_from_user Examples.ascii_lower
      [u "http://a"; u "https://c"] = (Raise EOFError, out, []).
Proof.
  apply (@X13_links_end_of_input Examples.ascii_lower
           [u "http://a"; u "https://c"]).
  repeat constructor.
Defined.

(** ** Storing the sentences *)
Section Store.

Import VectorStore.

Lemma bytes_of_inj (a b : string) : bytes_of a = bytes_of b -> a = b.
Proof.
  revert b. induction a as [|x a IH]; intros [|y b] H; try discriminate H.
  - reflexivity.
  - simpl in H. injection H as Hxy Hab.
    f_equal; [|apply IH, Hab].
    rewrite <- (ascii_N_embedding x), <- (ascii_N_embedding y), Hxy.
    reflexivity.
Qed.

Lemma str_of_nat_inj (i j : nat) : str_of_nat i = str_of_nat j -> i = j.
Proof.
  unfold str_of_nat. intros H. apply bytes_of_inj in H.
  apply DecimalNat.Unsigned.to_uint_inj.
  assert (E : Some (Nat.to_uint i) = Some (Nat.to_uint j)).
  { rewrite <- !DecimalString.NilEmpty.usu, H. reflexivity. }
  injection E; auto.
Qed.

Variable encode : list str -> list (list float).
Variable add_existing : list Entry -> Entry -> list Entry.

Lemma has_id_app (c1 c2 : list Entry) (i : str) :
  has_id (c1 ++ c2) i = has_id c1 i || has_id c2 i.
Proof. unfold has_id. apply existsb_app. Qed.

Lemma fold_add_fresh (items : list (nat * (str * list float)))
  (collection : list Entry) :
  (forall item, In item items ->
     has_id collection (str_of_nat (fst item)) = false) ->
  NoDup (map fst items) ->
  fold_left (add_step add_existing) items collection =
  collection ++ map stored_record items.
Proof.
  revert collection.
  induction items as [|[i [sentence vector]] items IH];
    intros collection Hfresh Hnodup.
  - symmetry. apply app_nil_r.
  - cbn [fold_left map]. unfold add_step at 2, collection_add.
    cbn [entry_id].
    pose proof (Hfresh (i, (sentence, vector)) (or_introl eq_refl)) as Hf.
    cbn [fst] in Hf. rewrite Hf.
    inversion Hnodup as [|? ? Hnotin Hnodup']; subst.
    rewrite IH.
    + rewrite <- app_assoc. reflexivity.
    + intros item Hin. rewrite has_id_app.
      rewrite (Hfresh item (or_intror Hin)). simpl.
      rewrite orb_false_r.
      destruct (str_eqb (str_of_nat i) (str_of_nat (fst item))) eqn:E;
        [|reflexivity].
      exfalso. apply str_eqb_eq, str_of_nat_inj in E. apply Hnotin.
      rewrite E. apply in_map, Hin.
    + exact Hnodup'.
Qed.

Lemma map_fst_combine (A B : Type) (l : list A) (m : list B) :
  map fst (combine l m)
  = firstn (Nat.min (List.length l) (List.length m)) l.
Proof.
  revert m. induction l as [|x l IH]; intros [|y m]; try reflexivity.
  simpl. f_equal. apply IH.
Qed.

Lemma map_snd_combine (A B : Type) (l : list A) (m : list B) :
  map snd (combine l m)
  = firstn (Nat.min (List.length l) (List.length m)) m.
Proof.
  revert m. induction l as [|x l IH]; intros [|y m]; try reflexivity.
  simpl. f_equal. apply IH.
Qed.

Lemma enumerate_fst (A : Type) (xs : list A) :
  map fst (enumerate xs) = seq 0 (List.length xs).
Proof.
  unfold enumerate. rewrite map_fst_combine, length_seq, Nat.min_id.
  apply firstn_all2. rewrite length_seq. constructor.
Qed.

Lemma enumerate_snd (A : Type) (xs : list A) :
  map snd (enumerate xs) = xs.
Proof.
  unfold enumerate. rewrite map_snd_combine, length_seq, Nat.min_id.
  apply firstn_all.
Qed.

Lemma add_sentences_fresh (sentences : list str) :
  add_sentences encode add_existing [] sentences =
  map stored_record (enumerate (combine sentences (encode sentences))).
Proof.
  unfold add_sentences. destruct sentences as [|s sentences]; [reflexivity|].
  cbn [truthy negb]. rewrite fold_add_fresh; [reflexivity| |].
  - intros item _. reflexivity.
  - rewrite enumerate_fst. apply seq_NoDup.
Qed.

Lemma NoDup_str_of_nat (n : nat) : NoDup (map str_of_nat (seq 0 n)).
Proof.
  assert (H : forall l, NoDup l -> NoDup (map str_of_nat l)).
  { induction 1 as [|x l Hx _ IH]; simpl; constructor; [|exact IH].
    intros Hin. apply in_map_iff in Hin. destruct Hin as (y & Hy & Hin).
    apply str_of_nat_inj in Hy. subst y. exact (Hx Hin). }
  apply H, seq_NoDup.
Qed.

Lemma add_sentences_stored (sentences : list str) :
  let stored := add_sentences encode add_existing [] sentences in
  let n := Nat.min (List.length sentences)
             (List.length (encode sentences)) in
  map entry_id stored = map str_of_nat (seq 0 n)
  /\ map (fun e => Chroma.text (entry_metadata e)) stored
     = firstn n sentences
  /\ map entry_embedding stored = firstn n (encode sentences).
Proof.
  intros stored n. unfold stored. rewrite add_sentences_fresh.
  rewrite !map_map. unfold stored_record. cbn [entry_id entry_metadata
    entry_embedding Chroma.text].
  assert (Hlen : List.length (combine sentences (encode sentences)) = n)
    by apply length_combine.
  repeat split.
  - rewrite <- (map_map fst str_of_nat), enumerate_fst, Hlen. reflexivity.
  - rewrite <- (map_map snd fst), enumerate_snd. apply map_fst_combine.
  - rewrite <- (map_map snd snd), enumerate_snd. apply map_snd_combine.
Qed.

End Store.

(** X14.  [add_sentences] on an empty collection stores one record for each
    sentence that has an embedding: the ids are the positions 0, 1, 2, ...
    written in decimal, pairwise different, and the texts and embeddings
    are those of the sentences, in order; when the encoder gives one
    embedding for each sentence, the stored texts are the sentences.  With
    no sentence the collection is left as it is. *)
Theorem X14_add_sentences_stored (encode : list str -> list (list float))
  (add_existing :
     list VectorStore.Entry -> VectorStore.Entry -> list VectorStore.Entry)
  (sentences : list str) :
  let stored :=
    VectorStore.add_sentences encode add_existing [] sentences in
  let n := Nat.min (List.length sentences)
             (List.length (encode sentences)) in
  map VectorStore.entry_id stored = map VectorStore.str_of_nat (seq 0 n)
  /\ NoDup (map VectorStore.entry_id stored)
  /\ map (fun e => Chroma.text (VectorStore.entry_metadata e)) stored
     = firstn n sentences
  /\ map VectorStore.entry_embedding stored = firstn n (encode sentences)
  /\ (List.length (encode sentences) = List.length sentences ->
      map (fun e => Chroma.text (VectorStore.entry_metadata e)) stored
      = sentences)
  /\ (forall collection,
       VectorStore.add_sentences encode add_existing collection []
       = collection).
Proof.
  intros stored n.
  destruct (add_sentences_stored encode add_existing sentences)
    as (Hid & Htext & Hemb).
  fold stored in Hid, Htext, Hemb. fold n in Hid, Htext, Hemb.
  repeat match goal with |- _ /\ _ => split end.
  - exact Hid.
  - rewrite Hid. apply NoDup_str_of_nat.
  - exact Htext.
  - exact Hemb.
  - intros Hlen. rewrite Htext. unfold n. rewrite Hlen, Nat.min_id.
    apply firstn_all.
  - reflexivity.
Qed.

Lemma X14_witness :
  map (fun e => Chroma.text (VectorStore.entry_metadata e))
    (VectorStore.add_sentences Examples.flat_encode Examples.keep_existing
       [] [u "Paris güzeldir"; u "Roma eskidir"])
  = [u "Paris güzeldir"; u "Roma eskidir"].
Proof.
  apply (proj1 (proj2 (proj2 (proj2 (proj2
           (@X14_add_sentences_stored Examples.flat_encode
              Examples.keep_existing
              [u "Paris güzeldir"; u "Roma eskidir"])))))).
  reflexivity.
Defined.

(** ** The whole session *)
Section Session2.

Variable lower : str -> str.
Variable requests_get : str -> list (str * str) -> result Response.
Variable paragraph_texts : str -> list str.
Variable requests_post : PostRequest -> result Response.
Variable encode : list str -> list (list float).
Variable add_existing :
  list VectorStore.Entry -> VectorStore.Entry -> list VectorStore.Entry.
Variable query_similar : list VectorStore.Entry -> str -> Chroma.QueryResult.
Variable threshold : float.
Variable new_rag_system : result unit.

(** Either no line ends the entry of links, or there is a first one. *)
Lemma first_done (inputs : list str) :
  Forall (fun l => is_done lower l = false) inputs
  \/ exists pre line rest,
       inputs = pre ++ line :: rest
       /\ Forall (fun l => is_done lower l = false) pre
       /\ is_done lower line = true.
Proof.
  induction inputs as [|l inputs IH].
  - left. constructor.
  - destruct (is_done lower l) eqn:E.
    + right. exists [], l, inputs. repeat split; [constructor | exact E].
    + destruct IH as [H | (pre & line & rest & -> & Hpre & Hline)].
      * left. constructor; assumption.
      * right. exists (l :: pre), line, rest.
        repeat split; [constructor; assumption | exact Hline].
Qed.

Lemma main_after_links (pre : list str) (line : str) (rest : list str) :
  Forall (fun l => is_done lower l = false) pre ->
  is_done lower line = true ->
  Main.main lower requests_get paragraph_texts requests_post encode
    add_existing query_similar threshold new_rag_system
    (pre ++ line :: rest) =
  let links := filter (fun l => startswith l (u "http")) pre in
  if negb (truthy links) then Main.NoLinks
  else
    match new_rag_system with
    | Raise e => Main.Raised e
    | Ok _ =>
      let all_sentences :=
        RAGSystem.load_content_from_links requests_get paragraph_texts
          links in
      if negb (truthy all_sentences) then Main.NoSentences
      else
        let (answers, ending) :=
          RAGSystem.query_loop lower requests_post
            (query_similar
               (VectorStore.add_sentences encode add_existing []
                  all_sentences))
            threshold rest in
        Main.Asked answers ending
    end.
Proof.
  intros Hpre Hline.
  destruct (@get_links_done lower pre line rest Hpre Hline)
    as (out & Hget & _).
  unfold Main.main. rewrite Hget. reflexivity.
Qed.

(** X15.  When no link can be fetched, [main] never reaches the question
    loop: it ends by an exception (the end of the input, or a failure to
    set the system up), for lack of links, or for lack of sentences, and no
    question is answered. *)
Theorem X15_no_content_no_question (inputs : list str) :
  (forall link,
     ContentFetcher.fetch_from_url requests_get paragraph_texts link
     = None) ->
  (exists e,
     Main.main lower requests_get paragraph_texts requests_post encode
       add_existing query_similar threshold new_rag_system inputs
     = Main.Raised e)
  \/ Main.main lower requests_get paragraph_texts requests_post encode
       add_existing query_similar threshold new_rag_system inputs
     = Main.NoLinks
  \/ Main.main lower requests_get paragraph_texts requests_post encode
       add_existing query_similar threshold new_rag_system inputs
     = Main.NoSentences.
Proof.
  intros Hfail.
  destruct (first_done inputs) as [H | (pre & line & rest & -> & Hpre & Hline)].
  - left. destruct (@links_loop_eof lower inputs [] H) as (out & Hloop).
    exists EOFError.
    unfold Main.main, Main.get_links_from_user. rewrite Hloop. reflexivity.
  - rewrite (@main_after_links pre line rest Hpre Hline). cbv zeta.
    destruct (filter (fun l => startswith l (u "http")) pre) as [|l links];
      [right; left; reflexivity|].
    cbn [truthy negb].
    destruct new_rag_system as [[]|e]; [|left; exists e; reflexivity].
    right. right.
    rewrite load_all_fail; [reflexivity|].
    intros link _. apply Hfail.
Qed.

(** X16.  A whole session: when the system is set up and the links typed
    before [bitti] give at least one sentence, [main] answers every
    question typed between [bitti] and the exit command, one answer for
    each, whatever the synthesizer does, and then ends by the exit command;
    the lines after it are not read. *)
Theorem X16_session (pre : list str) (line : str) (queries : list str)
  (exit_line : str) (rest : list str) :
  Forall (fun l => is_done lower l = false) pre ->
  is_done lower line = true ->
  new_rag_system = Ok tt ->
  RAGSystem.load_content_from_links requests_get paragraph_texts
    (filter (fun l => startswith l (u "http")) pre) <> [] ->
  Forall (fun q => is_exit lower q = false) queries ->
  is_exit lower exit_line = true ->
  exists answers,
    Main.main lower requests_get paragraph_texts requests_post encode
      add_existing query_similar threshold new_rag_system
      (pre ++ line :: queries ++ exit_line :: rest)
    = Main.Asked answers RAGSystem.Exited
    /\ List.length answers = List.length queries.
Proof.
  intros Hpre Hline Hnew Hload Hq Hexit.
  rewrite (@main_after_links pre line (queries ++ exit_line :: rest)
             Hpre Hline).
  cbv zeta. rewrite Hnew.
  destruct (filter (fun l => startswith l (u "http")) pre) as [|l links] eqn:El.
  - exfalso. apply Hload. reflexivity.
  - cbn [truthy negb].
    destruct (RAGSystem.load_content_from_links requests_get paragraph_texts
                (l :: links)) as [|s all_sentences] eqn:Ea;
      [exfalso; apply Hload; reflexivity|].
    cbn [truthy negb].
    destruct (@query_loop_answers lower requests_post
                (query_similar
                   (VectorStore.add_sentences encode add_existing []
                      (s :: all_sentences)))
                threshold queries exit_line rest Hq Hexit)
      as (answers & Hloop & Hlen).
    rewrite Hloop. exists answers. split; [reflexivity | exact Hlen].
Qed.

End Session2.

Lemma X15_witness :
  (exists e,
     Main.main Examples.ascii_lower (fun _ _ => Raise ConnectionError)
       Examples.one_paragraph (Examples.failing ReadTimeout)
       Examples.flat_encode Examples.keep_existing Examples.near_index
       Config.RELEVANCE_THRESHOLD (Ok tt)
       [u "http://a"; u "bitti"; u "elma"; u "çık"]
     = Main.Raised e)
  \/ Main.main Examples.ascii_lower (fun _ _ => Raise ConnectionError)
       Examples.one_paragraph (Examples.failing ReadTimeout)
       Examples.flat_encode Examples.keep_existing Examples.near_index
       Config.RELEVANCE_THRESHOLD (Ok tt)
       [u "http://a"; u "bitti"; u "elma"; u "çık"]
     = Main.NoLinks
  \/ Main.main Examples.ascii_lower (fun _ _ => Raise ConnectionError)
       Examples.one_paragraph (Examples.failing ReadTimeout)
       Examples.flat_encode Examples.keep_existing Examples.near_index
       Config.RELEVANCE_THRESHOLD (Ok tt)
       [u "http://a"; u "bitti"; u "elma"; u "çık"]
     = Main.NoSentences.
Proof.
  apply (@X15_no_content_no_question Examples.ascii_lower
           (fun _ _ => Raise ConnectionError) Examples.one_paragraph
           (Examples.failing ReadTimeout) Examples.flat_encode
           Examples.keep_existing Examples.near_index
           Config.RELEVANCE_THRESHOLD (Ok tt)
           [u "http://a"; u "bitti"; u "elma"; u "çık"]).
  intros link. reflexivity.
Defined.

Lemma X16_witness :
  exists answers,
    Main.main Examples.ascii_lower Examples.site Examples.one_paragraph
      (Examples.failing ReadTimeout) Examples.flat_encode
      Examples.keep_existing Examples.near_index Config.RELEVANCE_THRESHOLD
      (Ok tt)
      ([u "http://a/Elma. Armut"; u "kapali"] ++ u "bitti"
         :: [u "elma nedir"; u "armut"] ++ u "çık" :: [u "sonra"])
    = Main.Asked answers RAGSystem.Exited
    /\ List.length answers = List.length [u "elma nedir"; u "armut"].
Proof.
  apply (@X16_session Examples.ascii_lower Examples.site
           Examples.one_paragraph (Examples.failing ReadTimeout)
           Examples.flat_encode Examples.keep_existing Examples.near_index
           Config.RELEVANCE_THRESHOLD (Ok tt)
           [u "http://a/Elma. Armut"; u "kapali"] (u "bitti")
           [u "elma nedir"; u "armut"] (u "çık") [u "sonra"]).
  - repeat constructor.
  - vm_compute; reflexivity.
  - reflexivity.
  - vm_compute; discriminate.
  - repeat constructor.
  - vm_compute; reflexivity.
Defined.
